(** * Radiation detection spider bot: sensing, dead reckoning, scan and search

    A shallow embedding of [radiation_bot.py]:
    - [RadiationSensor]: pulse history, stale-on-demand CPM estimate and the
      dose-rate conversion;
    - [PositionTracker]: dead-reckoned pose;
    - [RadiationBot]: timed sample collection, the running maximum, the grid
      scan and the gradient-ascent source search.

    Numbers.  Python's floats are idealised: clock readings, rates and doses
    are rationals ([Q], so the sensor model computes), coordinates are real
    numbers ([R], because of [math.cos] and [math.sin]).  Counters, step
    counts and the heading are Python integers ([Z]); on a positive modulus
    Python's [%] is [Z.modulo].

    Effects.  Every method takes the object it mutates and returns the new
    one; a call is one step, except in [Interleaving], where [get_reading]
    and [_pulse_callback] are cut between two of their statements to let
    the other context run in between.  The value of [time.time()] is an argument ([current_time]) of the
    sensor's methods; the readings polled during a dwell are an input of the
    bot ([sense]), and the calls made on the actuator are logged in the bot
    ([actions]). *)

From Stdlib Require Import ZArith QArith List String Ascii Bool.
From Stdlib Require Import Reals Sorting.Sorted Psatz.
From Stdlib Require DecimalString.
Import ListNotations.

(** ** Comparisons on rationals, as booleans *)

Definition Qltb (a b : Q) : bool := negb (Qle_bool b a).

(* ================================================================== *)
(** ** class RadiationSensor *)
(* ================================================================== *)

Module Sensor.
Local Open Scope Q_scope.

Record RadiationSensor : Type := mkSensor {
  pulse_count : Z;          (* self.pulse_count *)
  start_time : Q;           (* self.start_time *)
  reading_interval : Q;     (* self.reading_interval *)
  last_reading : Q;         (* self.last_reading *)
  pulse_buffer : list Q     (* self.pulse_buffer, oldest first *)
}.

(** [__init__], run when the clock reads [now]. *)
Definition init (now : Q) : RadiationSensor :=
  {| pulse_count := 0;
     start_time := now;
     reading_interval := 5;
     last_reading := 0;
     pulse_buffer := [] |}.

(** [_pulse_callback]: count the pulse, append the clock reading, keep the
    entries younger than 60 seconds.  The [channel] argument is not used. *)
Definition _pulse_callback (current_time : Q) (s : RadiationSensor)
  : RadiationSensor :=
  let cutoff_time := current_time - 60 in
  {| pulse_count := pulse_count s + 1;
     start_time := start_time s;
     reading_interval := reading_interval s;
     last_reading := last_reading s;
     pulse_buffer :=
       filter (fun t => Qltb cutoff_time t) (pulse_buffer s ++ [current_time]) |}.

(** [get_reading]: the returned CPM and the sensor afterwards. *)
Definition get_reading (current_time : Q) (s : RadiationSensor)
  : Q * RadiationSensor :=
  let elapsed := current_time - start_time s in
  if Qle_bool (reading_interval s) elapsed then
    let cpm := inject_Z (Z.of_nat (List.length (pulse_buffer s))) in
    let reading :=
      if Qltb 0 elapsed then
        let short_term_cpm := (inject_Z (pulse_count s) / elapsed) * 60 in
        (cpm + short_term_cpm) / 2
      else cpm in
    (reading,
     {| pulse_count := 0;
        start_time := current_time;
        reading_interval := reading_interval s;
        last_reading := reading;
        pulse_buffer := pulse_buffer s |})
  else (last_reading s, s).

(** [get_instant_cpm]. *)
Definition get_instant_cpm (s : RadiationSensor) : Q :=
  inject_Z (Z.of_nat (List.length (pulse_buffer s))).

(** [convert_to_microsieverts]; it reads no field of the sensor. *)
Definition convert_to_microsieverts (cpm : Q) : Q :=
  if Qle_bool cpm 0 then 0
  else
    let cps := cpm / 60 in
    let micro_r_per_sec := cps / 65 in
    micro_r_per_sec * 0.036 * 3600.

(** What happens to a sensor between its construction and a query: pulses
    arrive, the control loop reads the rate, and a dwell empties the pulse
    buffer ([collect_radiation_sample]: [self.sensor.pulse_buffer = []]). *)
Inductive event : Type :=
| Pulse (t : Q)
| Read (t : Q)
| ClearBuffer.

Definition clear_buffer (s : RadiationSensor) : RadiationSensor :=
  {| pulse_count := pulse_count s;
     start_time := start_time s;
     reading_interval := reading_interval s;
     last_reading := last_reading s;
     pulse_buffer := [] |}.

Definition step (s : RadiationSensor) (e : event) : RadiationSensor :=
  match e with
  | Pulse t => _pulse_callback t s
  | Read t => snd (get_reading t s)
  | ClearBuffer => clear_buffer s
  end.

Definition run (es : list event) (s : RadiationSensor) : RadiationSensor :=
  fold_left step es s.

(** The values the [Read] events of a run returned, in order. *)
Fixpoint readings_of (es : list event) (s : RadiationSensor) : list Q :=
  match es with
  | [] => []
  | Read t :: es' => fst (get_reading t s) :: readings_of es' (step s (Read t))
  | e :: es' => readings_of es' (step s e)
  end.

(** Every [Read] of the run is made less than [reading_interval] seconds after
    the construction at [t0]. *)
Fixpoint reads_before (t0 : Q) (es : list event) : bool :=
  match es with
  | [] => true
  | Read t :: es' => Qltb (t - t0) 5 && reads_before t0 es'
  | _ :: es' => reads_before t0 es'
  end.

(** The invariant of the sensor: counter and estimate are never negative. *)
Definition sane (s : RadiationSensor) : Prop :=
  (0 <= pulse_count s)%Z /\ 0 <= last_reading s.

End Sensor.

(* ================================================================== *)
(** ** class PositionTracker *)
(* ================================================================== *)

(** Python's [needle in hay] on strings. *)
Fixpoint contains (needle hay : string) : bool :=
  match hay with
  | EmptyString => prefix needle EmptyString
  | String _ rest => prefix needle hay || contains needle rest
  end.

Module Tracker.
Local Open Scope R_scope.

Record PositionTracker : Type := mkTracker {
  x : R;             (* self.x *)
  y : R;             (* self.y *)
  heading : Z;       (* self.heading, degrees *)
  step_size : Z      (* self.step_size, cm per step *)
}.

(** [__init__]. *)
Definition init : PositionTracker :=
  {| x := 0; y := 0; heading := 0; step_size := 10 |}.

(** [math.radians] of a whole number of degrees. *)
Definition radians (deg : Z) : R := IZR deg * PI / 180.

(** [update_position]: the branch on the action's name, then the
    normalisation of the heading that every call ends with. *)
Definition update_position (action : string) (steps : Z) (p : PositionTracker)
  : PositionTracker :=
  let distance := (steps * step_size p)%Z in
  let moved :=
    if contains "forward" action then
      {| x := x p + IZR distance * cos (radians (heading p));
         y := y p + IZR distance * sin (radians (heading p));
         heading := heading p;
         step_size := step_size p |}
    else if contains "backward" action then
      {| x := x p - IZR distance * cos (radians (heading p));
         y := y p - IZR distance * sin (radians (heading p));
         heading := heading p;
         step_size := step_size p |}
    else if contains "turn left" action then
      {| x := x p; y := y p;
         heading := (heading p + 45 * steps)%Z;
         step_size := step_size p |}
    else if contains "turn right" action then
      {| x := x p; y := y p;
         heading := (heading p - 45 * steps)%Z;
         step_size := step_size p |}
    else p in
  {| x := x moved; y := y moved;
     heading := (heading moved mod 360)%Z;
     step_size := step_size moved |}.

(** [get_position]. *)
Definition get_position (p : PositionTracker) : R * R * Z :=
  (x p, y p, heading p).

(** The gait commands of the actuator, and their names as the code spells
    them. *)
Inductive command : Type :=
| Forward | Backward | TurnLeft | TurnRight | Stand | Sit.

Definition command_name (c : command) : string :=
  match c with
  | Forward => "forward"
  | Backward => "backward"
  | TurnLeft => "turn left"
  | TurnRight => "turn right"
  | Stand => "stand"
  | Sit => "sit"
  end.

End Tracker.

(* ================================================================== *)
(** ** class RadiationBot *)
(* ================================================================== *)

Module Bot.
Import Tracker.

(** One entry of [self.radiation_data] (the wall-clock [timestamp] string is
    left out). *)
Record DataPoint : Type := mkDataPoint {
  position : R * R;
  dp_heading : Z;
  radiation_cpm : Q;
  radiation_microsieverts : Q;
  readings : list Q;
  microsievert_readings : list Q
}.

(** The bot.  [actions] is the log of the calls [do_action(action, steps,
    speed)] made on the actuator, oldest first.  The binned copy of the
    averages, [heatmap_data], takes no part in what follows and is left
    out. *)
Record RadiationBot : Type := mkBot {
  tracker : PositionTracker;
  radiation_data : list DataPoint;
  is_exploring : bool;
  max_radiation : Q;
  max_radiation_pos : R * R;
  actions : list (string * Z * Z)
}.

(** [__init__]. *)
Definition init : RadiationBot :=
  {| tracker := Tracker.init;
     radiation_data := [];
     is_exploring := false;
     max_radiation := 0%Q;
     max_radiation_pos := (0%R, 0%R);
     actions := [("stand"%string, 1%Z, 80%Z)] |}.

(** [sum(l) / len(l) if l else 0], as the exact quotient.  The code's
    quotient is the binary64 one, which can differ from this one in the last
    digit.  What is proved below takes a mean as the value that is stored
    and compared; no general statement relates a mean to the readings it
    was computed from. *)
Definition average (l : list Q) : Q :=
  match l with
  | [] => 0%Q
  | _ => (fold_left Qplus l 0 / inject_Z (Z.of_nat (List.length l)))%Q
  end.

Section Environment.

(** Whether [RPi.GPIO] was imported (the module-level [GPIO]). *)
Variable gpio : bool.

(** The readings one dwell polls: [sense duration k] is what the polling
    loop of [collect_radiation_sample duration] appends to [readings], one
    value per poll, when the bot holds [k] data points already.  The values
    come from the sensor and the clock, or from the mock field and its noise;
    any course of them is some [sense]. *)
Variable sense : Z -> nat -> list Q.

(** [collect_radiation_sample]: the average reading and the bot afterwards. *)
Definition collect_radiation_sample (duration : Z) (b : RadiationBot)
  : Q * RadiationBot :=
  let rs := sense duration (List.length (radiation_data b)) in
  let ms :=
    if gpio then map Sensor.convert_to_microsieverts rs
    else map (fun reading => (reading * 0.01)%Q) rs in
  let avg_reading := average rs in
  let avg_microsieverts := average ms in
  let '(px, py, h) := get_position (tracker b) in
  let data_point :=
    {| position := (px, py);
       dp_heading := h;
       radiation_cpm := avg_reading;
       radiation_microsieverts := avg_microsieverts;
       readings := rs;
       microsievert_readings := ms |} in
  let improved := Qltb (max_radiation b) avg_reading in
  (avg_reading,
   {| tracker := tracker b;
      radiation_data := radiation_data b ++ [data_point];
      is_exploring := is_exploring b;
      max_radiation := if improved then avg_reading else max_radiation b;
      max_radiation_pos := if improved then (px, py) else max_radiation_pos b;
      actions := actions b |}).

(** [move_and_track], at the default speed 60. *)
Definition move_and_track (action : string) (steps : Z) (b : RadiationBot)
  : RadiationBot :=
  {| tracker := update_position action steps (tracker b);
     radiation_data := radiation_data b;
     is_exploring := is_exploring b;
     max_radiation := max_radiation b;
     max_radiation_pos := max_radiation_pos b;
     actions := actions b ++ [(action, steps, 60%Z)] |}.

(** A sequence of tracked movements, as any caller of [move_and_track] makes
    between two samples. *)
Definition drive (moves : list (string * Z)) (b : RadiationBot)
  : RadiationBot :=
  fold_left (fun b' m => move_and_track (fst m) (snd m) b') moves b.

Definition set_exploring (v : bool) (b : RadiationBot) : RadiationBot :=
  {| tracker := tracker b;
     radiation_data := radiation_data b;
     is_exploring := v;
     max_radiation := max_radiation b;
     max_radiation_pos := max_radiation_pos b;
     actions := actions b |}.

(** The body of the inner loop of [explore_grid] at [(row, col)].  Nothing in
    the body clears [is_exploring], so leaving the row on [break] and skipping
    each remaining cell are the same. *)
Definition explore_cell (grid_size : nat) (step_distance : Z)
  (row col : nat) (b : RadiationBot) : RadiationBot :=
  if negb (is_exploring b) then b
  else
    let b1 := snd (collect_radiation_sample 2 b) in
    if (Z.of_nat col <? Z.of_nat grid_size - 1)%Z then
      move_and_track "forward" step_distance b1
    else if (Z.of_nat row <? Z.of_nat grid_size - 1)%Z then
      if (Z.of_nat row mod 2 =? 0)%Z then
        move_and_track "turn right" 1
          (move_and_track "forward" step_distance
             (move_and_track "turn right" 1 b1))
      else
        move_and_track "turn left" 1
          (move_and_track "forward" step_distance
             (move_and_track "turn left" 1 b1))
    else b1.

Definition explore_row (grid_size : nat) (step_distance : Z)
  (b : RadiationBot) (row : nat) : RadiationBot :=
  fold_left (fun b' col => explore_cell grid_size step_distance row col b')
    (seq 0 grid_size) b.

(** [explore_grid]. *)
Definition explore_grid (grid_size : nat) (step_distance : Z)
  (b : RadiationBot) : RadiationBot :=
  set_exploring false
    (fold_left (explore_row grid_size step_distance) (seq 0 grid_size)
       (set_exploring true b)).

(** The variables of one pass of the [while] loop of
    [find_radiation_source]. *)
Record probing : Type := mkProbing {
  best_direction : option string;
  best_radiation : Q;
  bot : RadiationBot
}.

Definition directions : list string :=
  ["forward"; "turn right"; "turn right"; "turn right"]%string.

(** The body of [for direction in directions]. *)
Definition probe (st : probing) (direction : string) : probing :=
  if contains "turn" direction then
    {| best_direction := best_direction st;
       best_radiation := best_radiation st;
       bot := move_and_track direction 1 (bot st) |}
  else
    let b1 := move_and_track "forward" 1 (bot st) in
    let '(test_radiation, b2) := collect_radiation_sample 1 b1 in
    let better := Qltb (best_radiation st) test_radiation in
    let b3 := move_and_track "backward" 1 b2 in
    {| best_direction :=
         if better then Some "forward"%string else best_direction st;
       best_radiation :=
         if better then test_radiation else best_radiation st;
       bot := move_and_track "turn right" 1 b3 |}.

(** The [for] loop: the probing phase of one pass. *)
Definition probe_directions (current_radiation : Q) (b : RadiationBot)
  : probing :=
  fold_left probe directions
    {| best_direction := None;
       best_radiation := current_radiation;
       bot := b |}.

(** The [while steps_taken < max_steps] loop, [fuel] passes left. *)
Fixpoint seek (fuel : nat) (current_radiation : Q) (b : RadiationBot)
  : Q * RadiationBot :=
  match fuel with
  | O => (current_radiation, b)
  | S fuel' =>
      let st := probe_directions current_radiation b in
      match best_direction st with
      | Some _ =>
          seek fuel' (best_radiation st) (move_and_track "forward" 2 (bot st))
      | None => (current_radiation, bot st)
      end
  end.

(** [find_radiation_source]: the final radiation level and the bot. *)
Definition find_radiation_source (max_steps : Z) (b : RadiationBot)
  : Q * RadiationBot :=
  let '(current_radiation, b1) := collect_radiation_sample 2 b in
  seek (Z.to_nat max_steps) current_radiation b1.

(** *** The control skeleton of the two loops

    What a loop does to the bot is a sequence of dwells and tracked
    movements.  [run_script] performs such a sequence with the methods above;
    [explore_grid_runs_script] and [probe_directions_runs_script] below prove
    that the loops perform the sequences [grid_script] and [probe_script]. *)
Inductive op : Type :=
| Dwell (duration : Z)
| Move (action : string) (steps : Z).

Definition run_op (b : RadiationBot) (o : op) : RadiationBot :=
  match o with
  | Dwell duration => snd (collect_radiation_sample duration b)
  | Move action steps => move_and_track action steps b
  end.

Definition run_script (script : list op) (b : RadiationBot) : RadiationBot :=
  fold_left run_op script b.

End Environment.

(** The dwell and the movements of [explore_grid] at [(row, col)]. *)
Definition cell_script (grid_size : nat) (step_distance : Z) (row col : nat)
  : list op :=
  Dwell 2 ::
  (if (Z.of_nat col <? Z.of_nat grid_size - 1)%Z then
     [Move "forward" step_distance]
   else if (Z.of_nat row <? Z.of_nat grid_size - 1)%Z then
     if (Z.of_nat row mod 2 =? 0)%Z then
       [Move "turn right" 1; Move "forward" step_distance; Move "turn right" 1]
     else
       [Move "turn left" 1; Move "forward" step_distance; Move "turn left" 1]
   else []).

Definition grid_script (grid_size : nat) (step_distance : Z) : list op :=
  flat_map
    (fun row => flat_map (cell_script grid_size step_distance row)
                  (seq 0 grid_size))
    (seq 0 grid_size).

(** The dwell and the movements of one probing phase of
    [find_radiation_source]. *)
Definition probe_script : list op :=
  [Move "forward" 1; Dwell 1; Move "backward" 1; Move "turn right" 1;
   Move "turn right" 1; Move "turn right" 1; Move "turn right" 1].

(** The poses at which a script dwells, from the pose [p]. *)
Fixpoint dwell_poses (script : list op) (p : PositionTracker)
  : list PositionTracker :=
  match script with
  | [] => []
  | Dwell _ :: rest => p :: dwell_poses rest p
  | Move action steps :: rest =>
      dwell_poses rest (update_position action steps p)
  end.

(** The pose a script ends in, and the movements it makes. *)
Definition track_op (p : PositionTracker) (o : op) : PositionTracker :=
  match o with
  | Dwell _ => p
  | Move action steps => update_position action steps p
  end.

Fixpoint moves_of (script : list op) : list (string * Z * Z) :=
  match script with
  | [] => []
  | Dwell _ :: rest => moves_of rest
  | Move action steps :: rest => (action, steps, 60%Z) :: moves_of rest
  end.

End Bot.

(* ================================================================== *)
(** ** Pulse trains *)
(* ================================================================== *)

Module Pulses.

(** Clock readings that never go back, as [time.time()] gives them to
    successive calls of [_pulse_callback]. *)
Fixpoint nondecreasing (ts : list Q) : bool :=
  match ts with
  | [] => true
  | t :: rest =>
      match rest with
      | [] => true
      | u :: _ => Qle_bool t u && nondecreasing rest
      end
  end.

(** One call of [_pulse_callback] per clock reading, in order. *)
Definition pulses (ts : list Q) (s : Sensor.RadiationSensor)
  : Sensor.RadiationSensor :=
  fold_left (fun s' t => Sensor._pulse_callback t s') ts s.

End Pulses.

(* ================================================================== *)
(** ** The pulse context and the control loop *)
(* ================================================================== *)

(** [__init__] registers [_pulse_callback] with [GPIO.add_event_detect]: the
    pulse context runs it while the control loop may be inside
    [get_reading].  The sensor takes no lock, so the callback can run between
    any two statements of [get_reading].  Here [get_reading] is cut at one
    such place, after the estimate is stored and before the counter is
    reset; each statement is taken as a whole. *)
Module Interleaving.
Import Sensor.
Local Open Scope Q_scope.

(** [get_reading] from its first statement to the assignment of
    [self.last_reading] (lines 58 to 72): whether the branch of a new
    estimate is taken, and the sensor.  The counter and the start time are
    still those of the interval that ends. *)
Definition get_reading_compute (current_time : Q) (s : RadiationSensor)
  : bool * RadiationSensor :=
  let elapsed := current_time - start_time s in
  if Qle_bool (reading_interval s) elapsed then
    let cpm := inject_Z (Z.of_nat (List.length (pulse_buffer s))) in
    let reading :=
      if Qltb 0 elapsed then
        let short_term_cpm := (inject_Z (pulse_count s) / elapsed) * 60 in
        (cpm + short_term_cpm) / 2
      else cpm in
    (true,
     {| pulse_count := pulse_count s;
        start_time := start_time s;
        reading_interval := reading_interval s;
        last_reading := reading;
        pulse_buffer := pulse_buffer s |})
  else (false, s).

(** The rest of [get_reading] (lines 74 to 77): in the branch,
    [self.pulse_count = 0] and [self.start_time = current_time], with the
    local [current_time] of line 58; then the return of
    [self.last_reading]. *)
Definition get_reading_reset (current_time : Q)
  (state : bool * RadiationSensor) : Q * RadiationSensor :=
  let '(in_branch, s) := state in
  if in_branch then
    (last_reading s,
     {| pulse_count := 0;
        start_time := current_time;
        reading_interval := reading_interval s;
        last_reading := last_reading s;
        pulse_buffer := pulse_buffer s |})
  else (last_reading s, s).

(** One call of [get_reading] in the control loop, with the calls of
    [_pulse_callback] that the pulse context makes between the assignment of
    [self.last_reading] and the reset of the counter, at the clock readings
    [arrivals]. *)
Definition get_reading_interrupted (current_time : Q) (arrivals : list Q)
  (s : RadiationSensor) : Q * RadiationSensor :=
  let '(in_branch, s1) := get_reading_compute current_time s in
  get_reading_reset current_time (in_branch, Pulses.pulses arrivals s1).

(** [_pulse_callback] cut after [self.pulse_count += 1] (line 49), and the
    rest of it (lines 50 to 54). *)
Definition _pulse_callback_count (s : RadiationSensor) : RadiationSensor :=
  {| pulse_count := pulse_count s + 1;
     start_time := start_time s;
     reading_interval := reading_interval s;
     last_reading := last_reading s;
     pulse_buffer := pulse_buffer s |}.

Definition _pulse_callback_store (current_time : Q) (s : RadiationSensor)
  : RadiationSensor :=
  let cutoff_time := current_time - 60 in
  {| pulse_count := pulse_count s;
     start_time := start_time s;
     reading_interval := reading_interval s;
     last_reading := last_reading s;
     pulse_buffer :=
       filter (fun t => Qltb cutoff_time t) (pulse_buffer s ++ [current_time]) |}.

(** One call of [_pulse_callback] at the clock reading [pulse_time], with a
    whole call of [get_reading] by the control loop between the increment of
    the counter and the append to the history. *)
Definition pulse_callback_interrupted (pulse_time read_time : Q)
  (s : RadiationSensor) : Q * RadiationSensor :=
  let '(reading, s1) := get_reading read_time (_pulse_callback_count s) in
  (reading, _pulse_callback_store pulse_time s1).

(** The pulses that the estimates of a run of whole calls have counted: what
    [self.pulse_count] holds each time a [Read] computes a new estimate. *)
Fixpoint counted (es : list event) (s : RadiationSensor) : Z :=
  match es with
  | [] => 0%Z
  | e :: es' =>
      ((match e with
        | Read t =>
            if Qle_bool (reading_interval s) (t - start_time s)
            then pulse_count s else 0
        | _ => 0
        end) + counted es' (step s e))%Z
  end.

(** The number of pulses of a run. *)
Fixpoint arrived (es : list event) : Z :=
  match es with
  | [] => 0%Z
  | Pulse _ :: es' => (1 + arrived es')%Z
  | _ :: es' => arrived es'
  end.

End Interleaving.

(* ================================================================== *)
(** ** RadiationSensor.get_mock_reading *)
(* ================================================================== *)

Module Mock.
Local Open Scope R_scope.

(** The local [radiation] of [get_mock_reading]: the simulated field at
    [(x, y)] of a source at [(source_x, source_y)]. *)
Definition mock_radiation (x y source_x source_y : R) : R :=
  let distance := sqrt ((x - source_x) ^ 2 + (y - source_y) ^ 2) in
  let base_radiation := 20 in
  let source_strength := 1000 in
  base_radiation + source_strength / (1 + distance / 10).

(** [get_mock_reading]; [normal loc scale] is the value that
    [np.random.normal(loc, scale)] draws in this call. *)
Definition get_mock_reading (normal : R -> R -> R)
  (x y source_x source_y : R) : R :=
  let radiation := mock_radiation x y source_x source_y in
  radiation + normal 0 (radiation * 0.1).

End Mock.

(* ================================================================== *)
(** ** RadiationBot.heatmap_data *)
(* ================================================================== *)

Module Heatmap.
Import Tracker.

(** The largest integer not above [r]. *)
Definition floor (r : R) : Z := (up r - 1)%Z.

(** Python's [round] of a float to an integer: to the nearest, a tie to the
    even neighbour. *)
Definition round (r : R) : Z :=
  let f := floor r in
  let frac := (r - IZR f)%R in
  if Rlt_dec frac (1 / 2) then f
  else if Rlt_dec (1 / 2) frac then (f + 1)%Z
  else if Z.even f then f else (f + 1)%Z.

(** [round(c/10)*10]: one component of the key of a bin. *)
Definition bin (c : R) : Z := (round (c / 10) * 10)%Z.

Definition key_eqb (k1 k2 : Z * Z) : bool :=
  (fst k1 =? fst k2)%Z && (snd k1 =? snd k2)%Z.

(** [defaultdict(list)] with pairs of integers as keys, in insertion
    order. *)
Definition heatmap : Type := list ((Z * Z) * list Q).

(** The list stored under [k], empty when the key is missing. *)
Fixpoint cell (k : Z * Z) (h : heatmap) : list Q :=
  match h with
  | [] => []
  | (k', vs) :: rest => if key_eqb k' k then vs else cell k rest
  end.

(** [heatmap_data[k].append(v)]. *)
Fixpoint append_to (k : Z * Z) (v : Q) (h : heatmap) : heatmap :=
  match h with
  | [] => [(k, [v])]
  | (k', vs) :: rest =>
      if key_eqb k' k then (k', vs ++ [v]) :: rest
      else (k', vs) :: append_to k v rest
  end.

Section Environment.

Variable gpio : bool.
Variable sense : Z -> nat -> list Q.

(** [collect_radiation_sample] with the bins it fills: the bot is updated as
    by [Bot.collect_radiation_sample], and the average is appended to the bin
    of the current position.  The bins are carried beside the bot. *)
Definition collect_radiation_sample (duration : Z)
  (st : Bot.RadiationBot * heatmap) : Q * (Bot.RadiationBot * heatmap) :=
  let '(b, h) := st in
  let '(px, py, _) := get_position (Bot.tracker b) in
  let '(avg_reading, b') :=
    Bot.collect_radiation_sample gpio sense duration b in
  (avg_reading, (b', append_to (bin px, bin py) avg_reading h)).

(** A script of dwells and movements, with the bins. *)
Definition run_op (st : Bot.RadiationBot * heatmap) (o : Bot.op)
  : Bot.RadiationBot * heatmap :=
  match o with
  | Bot.Dwell duration => snd (collect_radiation_sample duration st)
  | Bot.Move action steps => (Bot.move_and_track action steps (fst st), snd st)
  end.

Definition run_script (script : list Bot.op)
  (st : Bot.RadiationBot * heatmap) : Bot.RadiationBot * heatmap :=
  fold_left run_op script st.

End Environment.

(** The number of values stored in all bins. *)
Definition stored (h : heatmap) : nat :=
  fold_right (fun c n => (List.length (snd c) + n)%nat) 0%nat h.

End Heatmap.

(* ================================================================== *)
(** ** generate_heatmap, demo_mode and the interactive controller *)
(* ================================================================== *)

Module Control.
Import Tracker Bot.

(** [Picrawler.do_action], as far as the bot sees it: the call is logged. *)
Definition do_action (action : string) (steps speed : Z) (b : RadiationBot)
  : RadiationBot :=
  {| tracker := tracker b;
     radiation_data := radiation_data b;
     is_exploring := is_exploring b;
     max_radiation := max_radiation b;
     max_radiation_pos := max_radiation_pos b;
     actions := actions b ++ [(action, steps, speed)] |}.

(** What [generate_heatmap] hands to the plotting library: the scatter
    points with their colours, the position of the marker of the highest
    radiation, and the file.  The texts of the figure are left out: the
    title, the names of the axes and the label of the marker, which is
    [max_radiation] printed with one decimal. *)
Record Plot : Type := mkPlot {
  x_coords : list R;
  y_coords : list R;
  radiations : list Q;
  marker : R * R;
  plot_file : string
}.

(** [generate_heatmap]: [None] when there is no data.  The marker is always
    drawn: [max_radiation_pos] is a pair, which is true in Python. *)
Definition generate_heatmap (save_file : string) (b : RadiationBot)
  : option Plot :=
  match radiation_data b with
  | [] => None
  | _ =>
      let positions := map position (radiation_data b) in
      Some {| x_coords := map fst positions;
              y_coords := map snd positions;
              radiations := map radiation_cpm (radiation_data b);
              marker := max_radiation_pos b;
              plot_file := save_file |}
  end.

Section Environment.

Variable gpio : bool.
Variable sense : Z -> nat -> list Q.

(** [demo_mode] when it is not interrupted: the plot it saves and the bot
    afterwards ([save_data] writes a file and changes nothing). *)
Definition demo_mode (b : RadiationBot) : option Plot * RadiationBot :=
  let b1 := explore_grid gpio sense 4 2 b in
  let '(_, b2) := find_radiation_source gpio sense 15 b1 in
  (generate_heatmap "radiation_heatmap.png" b2, do_action "sit" 1 80 b2).

(** The key [readchar] returns for ESC. *)
Definition esc : string := String (ascii_of_nat 27) EmptyString.

(** One pass of the loop of [radiation_control.main] on a key other than
    ESC.  The keys [h], [v], [i], [?] and the unknown ones print or write
    files and leave the bot. *)
Definition handle_key (key : string) (b : RadiationBot) : RadiationBot :=
  if (key =? "w")%string then move_and_track "forward" 2 b
  else if (key =? "s")%string then move_and_track "backward" 2 b
  else if (key =? "a")%string then move_and_track "turn left" 1 b
  else if (key =? "d")%string then move_and_track "turn right" 1 b
  else if (key =? "q")%string then do_action "stand" 1 80 b
  else if (key =? "e")%string then do_action "sit" 1 80 b
  else if (key =? "r")%string then
    snd (collect_radiation_sample gpio sense 3 b)
  else if (key =? "g")%string then explore_grid gpio sense 3 2 b
  else if (key =? "f")%string then
    snd (find_radiation_source gpio sense 10 b)
  else if (key =? " ")%string then snd (demo_mode b)
  else b.

(** The [while True] loop on the keys read: ESC leaves it, and so does the
    end of the list, which stands for the interrupt that is the only other
    way out. *)
Fixpoint key_loop (keys : list string) (b : RadiationBot) : RadiationBot :=
  match keys with
  | [] => b
  | key :: rest =>
      if (key =? esc)%string then b else key_loop rest (handle_key key b)
  end.

(** [radiation_control.main]: a new bot, the loop, and the [finally]. *)
Definition main (keys : list string) : RadiationBot :=
  do_action "sit" 1 80 (key_loop keys Bot.init).

End Environment.

End Control.

(* ================================================================== *)
(** ** main_control.py: the status of the control hub *)
(* ================================================================== *)

Module Hub.
Import Tracker.

(** [self.status]. *)
Record Status : Type := mkStatus {
  position : R * R * Z;
  radiation_cpm : Q;
  radiation_microsv : Q;
  mode : string;
  last_action : string;
  total_samples : nat;
  max_radiation : Q;
  battery_level : Z
}.

(** The hub, without its camera, frames and threads: the robot with its
    sensor ([None] in mock mode, when [RadiationBot] could not be imported)
    and the status. *)
Record ControlHub : Type := mkHub {
  robot : option (Bot.RadiationBot * Sensor.RadiationSensor);
  status : Status
}.

Definition init_status : Status :=
  {| position := (0%R, 0%R, 0%Z);
     radiation_cpm := 0;
     radiation_microsv := 0;
     mode := "Manual";
     last_action := "None";
     total_samples := 0;
     max_radiation := 0;
     battery_level := 100 |}.

(** [__init__] with a robot, built when the clock reads [now]. *)
Definition init (now : Q) : ControlHub :=
  {| robot := Some (Bot.init, Sensor.init now); status := init_status |}.

Definition set_mode (m : string) (st : Status) : Status :=
  {| position := position st;
     radiation_cpm := radiation_cpm st;
     radiation_microsv := radiation_microsv st;
     mode := m;
     last_action := last_action st;
     total_samples := total_samples st;
     max_radiation := max_radiation st;
     battery_level := battery_level st |}.

Definition set_last_action (a : string) (st : Status) : Status :=
  {| position := position st;
     radiation_cpm := radiation_cpm st;
     radiation_microsv := radiation_microsv st;
     mode := mode st;
     last_action := a;
     total_samples := total_samples st;
     max_radiation := max_radiation st;
     battery_level := battery_level st |}.

(** [update_status], called when the clock reads [now]. *)
Definition update_status (now : Q) (h : ControlHub) : ControlHub :=
  match robot h with
  | None => h
  | Some (b, s) =>
      let '(cpm, s') := Sensor.get_reading now s in
      let microsv := Sensor.convert_to_microsieverts cpm in
      {| robot := Some (b, s');
         status :=
           {| position := get_position (Bot.tracker b);
              radiation_cpm := cpm;
              radiation_microsv := microsv;
              mode := mode (status h);
              last_action := last_action (status h);
              total_samples := List.length (Bot.radiation_data b);
              max_radiation :=
                if Qltb (max_radiation (status h)) cpm then cpm
                else max_radiation (status h);
              battery_level := battery_level (status h) |} |}
  end.

(** [f"{action} {steps}"]. *)
Definition action_label (action : string) (steps : Z) : string :=
  (action ++ " " ++ DecimalString.NilZero.string_of_int (Z.to_int steps))
    %string.

Section Environment.

Variable gpio : bool.
Variable sense : Z -> nat -> list Q.

(** [move_robot]. *)
Definition move_robot (action : string) (steps : Z) (now : Q)
  (h : ControlHub) : ControlHub :=
  match robot h with
  | None => h
  | Some (b, s) =>
      update_status now
        {| robot := Some (Bot.move_and_track action steps b, s);
           status := set_last_action (action_label action steps) (status h) |}
  end.

(** [robot_action]. *)
Definition robot_action (action : string) (h : ControlHub) : ControlHub :=
  match robot h with
  | None => h
  | Some (b, s) =>
      {| robot := Some (Control.do_action action 1 80 b, s);
         status := set_last_action action (status h) |}
  end.

(** [take_radiation_reading].  The dwell empties the pulse buffer of the
    sensor and polls it while pulses arrive: [during] is what happens to the
    sensor in that time, after the reset. *)
Definition take_radiation_reading (during : list Sensor.event) (now : Q)
  (h : ControlHub) : ControlHub :=
  match robot h with
  | None => h
  | Some (b, s) =>
      let b' := snd (Bot.collect_radiation_sample gpio sense 3 b) in
      let s' := Sensor.run (Sensor.ClearBuffer :: during) s in
      update_status now
        {| robot := Some (b', s');
           status := set_mode "Manual" (set_mode "Sampling" (status h)) |}
  end.

(** What happens to a hub: the sensor sees a pulse (or another event), a
    key makes the robot move, act or sample, or the status thread runs
    [update_status]. *)
Inductive event : Type :=
| Sense (e : Sensor.event)
| MoveRobot (action : string) (steps : Z) (now : Q)
| RobotAction (action : string)
| TakeReading (during : list Sensor.event) (now : Q)
| UpdateStatus (now : Q).

Definition step (h : ControlHub) (e : event) : ControlHub :=
  match e with
  | Sense e' =>
      match robot h with
      | None => h
      | Some (b, s) =>
          {| robot := Some (b, Sensor.step s e'); status := status h |}
      end
  | MoveRobot action steps now => move_robot action steps now h
  | RobotAction action => robot_action action h
  | TakeReading during now => take_radiation_reading during now h
  | UpdateStatus now => update_status now h
  end.

Definition run (es : list event) (h : ControlHub) : ControlHub :=
  fold_left step es h.

(** The status agrees with itself and with the robot. *)
Definition status_ok (h : ControlHub) : Prop :=
  radiation_microsv (status h)
    = Sensor.convert_to_microsieverts (radiation_cpm (status h)) /\
  (0 <= radiation_cpm (status h))%Q /\
  (radiation_cpm (status h) <= max_radiation (status h))%Q /\
  exists b s,
    robot h = Some (b, s) /\ Sensor.sane s /\
    (total_samples (status h) <= List.length (Bot.radiation_data b))%nat.

End Environment.

End Hub.

(* ================================================================== *)
(** ** Invariants of the bot *)
(* ================================================================== *)

Module Invariants.
Import Tracker Bot.

(** One of the eight headings 0, 45, ..., 315. *)
Definition compass (h : Z) : Prop :=
  exists k : Z, (0 <= k < 8)%Z /\ h = (45 * k)%Z.

(** The pose of a bot that has only been moved by its tracker: the step
    size of [__init__] and a compass heading. *)
Definition pose_ok (b : RadiationBot) : Prop :=
  step_size (tracker b) = 10%Z /\ compass (heading (tracker b)).

(** The maximum record agrees with the data: no data point is above
    [max_radiation], and [max_radiation] is either the initial 0 at the
    initial position or the CPM of a data point taken at
    [max_radiation_pos]. *)
Definition max_ok (b : RadiationBot) : Prop :=
  Forall (fun dp => (radiation_cpm dp <= max_radiation b)%Q)
    (radiation_data b) /\
  (0 <= max_radiation b)%Q /\
  ((max_radiation b = 0%Q /\ max_radiation_pos b = (0%R, 0%R)) \/
   exists dp : DataPoint,
     In dp (radiation_data b) /\
     radiation_cpm dp = max_radiation b /\
     position dp = max_radiation_pos b).

(** [b'] is [b] with more data and more logged actions: nothing stored is
    altered and the maximum has not gone down. *)
Definition extends (b b' : RadiationBot) : Prop :=
  (exists new : list DataPoint,
     radiation_data b' = radiation_data b ++ new) /\
  (exists more : list (string * Z * Z), actions b' = actions b ++ more) /\
  (max_radiation b <= max_radiation b')%Q.

(** The left-turn steps a movement counts for in [update_position], by the
    branch its action name takes: right turns count negatively, advances
    and unknown actions not at all. *)
Definition turn_steps (action : string) (steps : Z) : Z :=
  if contains "forward" action then 0%Z
  else if contains "backward" action then 0%Z
  else if contains "turn left" action then steps
  else if contains "turn right" action then (- steps)%Z
  else 0%Z.

Definition net_turn (moves : list (string * Z)) : Z :=
  fold_right (fun m acc => (turn_steps (fst m) (snd m) + acc)%Z) 0%Z moves.

End Invariants.

(* ================================================================== *)
(** * Properties of the sensor *)
(* ================================================================== *)

Section SensorFacts.
Import Sensor.
Local Open Scope Q_scope.

Lemma Qltb_true_iff (a b : Q) : Qltb a b = true <-> a < b.
Proof.
  unfold Qltb. rewrite negb_true_iff. split.
  - intros H. apply Qnot_le_lt. intros Hle.
    apply Qle_bool_iff in Hle. congruence.
  - intros H. destruct (Qle_bool b a) eqn:E; [|reflexivity].
    apply Qle_bool_iff in E. exfalso. revert E. apply Qlt_not_le, H.
Qed.

Lemma Qltb_false_iff (a b : Q) : Qltb a b = false <-> b <= a.
Proof.
  unfold Qltb. rewrite negb_false_iff. apply Qle_bool_iff.
Qed.

Lemma Qle_bool_false_iff (a b : Q) : Qle_bool a b = false <-> b < a.
Proof.
  rewrite <- Qltb_true_iff. unfold Qltb.
  destruct (Qle_bool a b); simpl; split; congruence.
Qed.

(** A timestamp is always younger than its own 60 second cutoff. *)
Lemma own_cutoff (t : Q) : Qltb (t - 60) t = true.
Proof. apply Qltb_true_iff. lra. Qed.

(** Appending an element that passes the filter never gives the list back. *)
Lemma filter_snoc_neq {A : Type} (f : A -> bool) (t : A) :
  f t = true -> forall l, filter f l ++ [t] <> l.
Proof.
  intros Ht l. induction l as [|a l IH]; simpl.
  - discriminate.
  - destruct (f a) eqn:Ea.
    + simpl. intros H. injection H as H. exact (IH H).
    + intros H.
      assert (Hin : In a (filter f l ++ [t])) by (rewrite H; left; reflexivity).
      apply in_app_or in Hin. destruct Hin as [Hin | [<- | []]].
      * apply filter_In in Hin. destruct Hin as [_ Hfa]. congruence.
      * congruence.
Qed.

(** What [get_reading] does when the interval has not elapsed. *)
Lemma get_reading_stale (now : Q) (s : RadiationSensor) :
  now - start_time s < reading_interval s ->
  get_reading now s = (last_reading s, s).
Proof.
  intros H. unfold get_reading.
  apply Qle_bool_false_iff in H. rewrite H. reflexivity.
Qed.

(** The value [get_reading] returns is the estimate it leaves in the
    sensor. *)
Lemma get_reading_last (now : Q) (s : RadiationSensor) :
  last_reading (snd (get_reading now s)) = fst (get_reading now s).
Proof.
  unfold get_reading.
  destruct (Qle_bool (reading_interval s) (now - start_time s)); reflexivity.
Qed.

Lemma length_nonneg {A : Type} (l : list A) :
  0 <= inject_Z (Z.of_nat (List.length l)).
Proof.
  change 0 with (inject_Z 0). rewrite <- Zle_Qle. lia.
Qed.

(** A freshly computed estimate is not negative when the pulse counter is
    not. *)
Lemma get_reading_nonneg (now : Q) (s : RadiationSensor) :
  (0 <= pulse_count s)%Z -> 0 <= last_reading s ->
  0 <= fst (get_reading now s).
Proof.
  intros Hc Hl. unfold get_reading.
  destruct (Qle_bool (reading_interval s) (now - start_time s)); simpl;
    [|exact Hl].
  pose proof (length_nonneg (pulse_buffer s)) as Hn.
  destruct (Qltb 0 (now - start_time s)) eqn:E; [|exact Hn].
  apply Qltb_true_iff in E.
  assert (Hs : 0 <= inject_Z (pulse_count s) / (now - start_time s) * 60).
  { apply Qmult_le_0_compat; [|lra].
    apply Qle_shift_div_l; [exact E|].
    rewrite Qmult_0_l. change 0 with (inject_Z 0).
    rewrite <- Zle_Qle. exact Hc. }
  set (short := inject_Z (pulse_count s) / (now - start_time s) * 60) in *.
  set (cpm := inject_Z (Z.of_nat (List.length (pulse_buffer s)))) in *.
  apply Qle_shift_div_l; lra.
Qed.

Lemma init_sane (t0 : Q) : sane (init t0).
Proof. split; simpl; [lia | lra]. Qed.

Lemma step_sane (s : RadiationSensor) (e : event) : sane s -> sane (step s e).
Proof.
  intros [Hc Hl]. destruct e as [t | t |]; simpl.
  - split; simpl; [lia | exact Hl].
  - split.
    + unfold get_reading.
      destruct (Qle_bool (reading_interval s) (t - start_time s)); simpl; lia.
    + rewrite get_reading_last. apply get_reading_nonneg; assumption.
  - split; simpl; assumption.
Qed.

Lemma run_sane (es : list event) (s : RadiationSensor) :
  sane s -> sane (run es s).
Proof.
  revert s. induction es as [|e es IH]; intros s Hs; simpl.
  - exact Hs.
  - apply IH, step_sane, Hs.
Qed.

End SensorFacts.

Section SensorClaims.
Import Sensor.
Local Open Scope Q_scope.

(** C3 (as the code has it).  [_pulse_callback] records every timestamp, a
    late or a duplicate one too: the counter grows by one, the timestamp
    becomes the newest entry of the history behind the entries of the old
    history that are younger than 60 seconds relative to it, so the history is
    never what it was; the other fields stay.  The function is total: no
    timestamp makes it fail. *)
Theorem pulse_callback_records_every_timestamp
  (s : RadiationSensor) (t : Q) :
  pulse_count (_pulse_callback t s) = (pulse_count s + 1)%Z /\
  pulse_buffer (_pulse_callback t s)
    = filter (fun u => Qltb (t - 60) u) (pulse_buffer s) ++ [t] /\
  pulse_buffer (_pulse_callback t s) <> pulse_buffer s /\
  start_time (_pulse_callback t s) = start_time s /\
  reading_interval (_pulse_callback t s) = reading_interval s /\
  last_reading (_pulse_callback t s) = last_reading s.
Proof.
  assert (Hbuf : pulse_buffer (_pulse_callback t s)
                 = filter (fun u => Qltb (t - 60) u) (pulse_buffer s) ++ [t]).
  { unfold _pulse_callback; simpl.
    rewrite filter_app. simpl. rewrite own_cutoff. reflexivity. }
  repeat split; try reflexivity.
  - exact Hbuf.
  - rewrite Hbuf. apply filter_snoc_neq, own_cutoff.
Qed.

(** C3, the claim as stated fails: with the history [[10]], the duplicate
    timestamp 10 and the late timestamp 7 are both appended, the counter
    counts them, and the rate read at time 20 doubles from 2 to 4. *)
Lemma duplicate_pulse_is_recorded :
  let s := _pulse_callback 10 (init 0) in
  pulse_buffer s = [10] /\
  pulse_buffer (_pulse_callback 10 s) = [10; 10] /\
  pulse_buffer (_pulse_callback 10 s) <> pulse_buffer s /\
  pulse_buffer (_pulse_callback 7 s) = [10; 7] /\
  pulse_count (_pulse_callback 10 s) = 2%Z /\
  fst (get_reading 20 s) == 2 /\
  fst (get_reading 20 (_pulse_callback 10 s)) == 4.
Proof.
  repeat split; try reflexivity.
  vm_compute. discriminate.
Qed.

(** Whatever the first call did, a second call made before the interval
    that is then running has elapsed returns the value of the first. *)
Lemma get_reading_repeat (s : RadiationSensor) (t1 t2 : Q) :
  t2 - start_time (snd (get_reading t1 s))
    < reading_interval (snd (get_reading t1 s)) ->
  fst (get_reading t2 (snd (get_reading t1 s))) = fst (get_reading t1 s).
Proof.
  intros H. rewrite (get_reading_stale _ _ H). simpl.
  apply get_reading_last.
Qed.

(** C5.  Two calls of [get_reading] made less than [reading_interval] seconds
    after the start of the running interval, with no pulse between them,
    return the identical value: the first call returns the stale estimate
    and leaves the sensor as it was. *)
Theorem get_reading_idempotent_within_interval
  (s : RadiationSensor) (t1 t2 : Q) :
  t1 - start_time s < reading_interval s ->
  t2 - start_time s < reading_interval s ->
  fst (get_reading t2 (snd (get_reading t1 s))) = fst (get_reading t1 s) /\
  snd (get_reading t1 s) = s.
Proof.
  intros H1 H2. rewrite (get_reading_stale _ _ H1). simpl.
  rewrite (get_reading_stale _ _ H2). split; reflexivity.
Qed.

(** C5 on a sensor whose estimate was recomputed at 6 s (to 11 CPM) and
    that is read again at 8 s and at 10 s. *)
Lemma get_reading_idempotent_witness :
  let s := run [Pulse 1; Pulse 2; Read 6; Pulse 7] (init 0) in
  8 - start_time s < reading_interval s /\
  10 - start_time s < reading_interval s /\
  fst (get_reading 8 s) == 11 /\
  fst (get_reading 10 (snd (get_reading 8 s))) = fst (get_reading 8 s) /\
  snd (get_reading 8 s) = s.
Proof.
  split; [reflexivity|]. split; [reflexivity|]. split; [reflexivity|].
  apply (get_reading_idempotent_within_interval
           (run [Pulse 1; Pulse 2; Read 6; Pulse 7] (init 0)) 8 10);
    reflexivity.
Defined.

(** C7.  [convert_to_microsieverts] returns 0 on a CPM that is not positive
    and [((cpm / 60) / 65) * 0.036 * 3600] otherwise, which is [cpm * 54 /
    1625]; the dose rate is never negative; and whatever pulses, reads and
    buffer resets a sensor has seen since its construction, [get_reading]
    returns a CPM that is not negative. *)
Theorem dose_rate_and_cpm_nonneg :
  (forall cpm : Q, cpm <= 0 -> convert_to_microsieverts cpm = 0) /\
  (forall cpm : Q, 0 < cpm ->
     convert_to_microsieverts cpm = cpm / 60 / 65 * 0.036 * 3600 /\
     convert_to_microsieverts cpm == cpm * (54 # 1625)) /\
  (forall cpm : Q, 0 <= convert_to_microsieverts cpm) /\
  (forall (t0 : Q) (es : list event) (now : Q),
     0 <= fst (get_reading now (run es (init t0)))).
Proof.
  assert (Hpos : forall cpm : Q, 0 < cpm ->
            convert_to_microsieverts cpm = cpm / 60 / 65 * 0.036 * 3600).
  { intros cpm H. unfold convert_to_microsieverts.
    apply Qle_bool_false_iff in H. rewrite H. reflexivity. }
  assert (Hneg : forall cpm : Q, cpm <= 0 -> convert_to_microsieverts cpm = 0).
  { intros cpm H. unfold convert_to_microsieverts.
    apply Qle_bool_iff in H. rewrite H. reflexivity. }
  split; [exact Hneg|]. split; [|split].
  - intros cpm H. split; [exact (Hpos cpm H)|].
    rewrite (Hpos cpm H). field.
  - intros cpm. destruct (Qlt_le_dec 0 cpm) as [H | H].
    + rewrite (Hpos cpm H).
      assert (E : cpm / 60 / 65 * 0.036 * 3600 == cpm * (54 # 1625)) by field.
      rewrite E. nra.
    + rewrite (Hneg cpm H). apply Qle_refl.
  - intros t0 es now.
    destruct (run_sane es (init t0) (init_sane t0)) as [Hc Hl].
    apply get_reading_nonneg; assumption.
Qed.

(** C7 on the CPM values -3 and 120 and on a run with a recomputed
    estimate. *)
Lemma dose_rate_and_cpm_nonneg_witness :
  convert_to_microsieverts (-3) = 0 /\
  convert_to_microsieverts 120 == 1296 # 325 /\
  0 <= fst (get_reading 7 (run [Pulse 1; Pulse 2; Read 6; Pulse (13 # 2)] (init 0))).
Proof.
  destruct dose_rate_and_cpm_nonneg as [Hneg [Hpos [_ Hcpm]]].
  split; [apply Hneg; discriminate|].
  split; [apply (Qeq_trans _ _ _ (proj2 (Hpos 120 eq_refl))); reflexivity|].
  apply Hcpm.
Defined.

(** The fields a run leaves alone while every read is made before the first
    interval has elapsed. *)
Lemma run_before_first_interval (t0 : Q) (es : list event)
  (s : RadiationSensor) :
  start_time s = t0 -> reading_interval s = 5 -> last_reading s = 0 ->
  reads_before t0 es = true ->
  start_time (run es s) = t0 /\ reading_interval (run es s) = 5 /\
  last_reading (run es s) = 0 /\
  Forall (fun v => v = 0) (readings_of es s).
Proof.
  revert s. induction es as [|e es IH]; intros s Hs Hi Hl Hr.
  - simpl. auto.
  - destruct e as [t | t |]; simpl in Hr |- *.
    + apply IH; auto.
    + apply andb_prop in Hr. destruct Hr as [Ht Hr].
      apply Qltb_true_iff in Ht.
      assert (Hstale : get_reading t s = (last_reading s, s)).
      { apply get_reading_stale. rewrite Hs, Hi. exact Ht. }
      rewrite Hstale. simpl.
      destruct (IH s Hs Hi Hl Hr) as [H1 [H2 [H3 H4]]].
      repeat split; auto.
    + apply IH; auto.
Qed.

(** C10.  Until [reading_interval] (5 seconds) has elapsed since the
    construction of the sensor, [get_reading] returns 0, whatever pulses were
    recorded: the estimate starts at 0 and an early read neither recomputes
    it nor restarts the interval. *)
Theorem get_reading_zero_before_first_interval
  (t0 : Q) (es : list event) (now : Q) :
  reads_before t0 es = true ->
  now - t0 < 5 ->
  fst (get_reading now (run es (init t0))) = 0 /\
  Forall (fun v => v = 0) (readings_of es (init t0)).
Proof.
  intros Hr Hnow.
  destruct (run_before_first_interval t0 es (init t0)
              eq_refl eq_refl eq_refl Hr) as [Hs [Hi [Hl Hall]]].
  split; [|exact Hall].
  rewrite get_reading_stale; [exact Hl|].
  rewrite Hs, Hi. exact Hnow.
Qed.

(** C10 on a sensor built at 100 s that has counted four pulses by
    104.5 s. *)
Lemma get_reading_zero_before_first_interval_witness :
  let es := [Pulse 101; Pulse 102; Read 103; Pulse (207 # 2); ClearBuffer;
             Pulse 104] in
  reads_before 100 es = true /\
  (209 # 2) - 100 < 5 /\
  pulse_count (run es (init 100)) = 4%Z /\
  fst (get_reading (209 # 2) (run es (init 100))) = 0.
Proof.
  split; [reflexivity|]. split; [reflexivity|]. split; [reflexivity|].
  apply (get_reading_zero_before_first_interval 100
           [Pulse 101; Pulse 102; Read 103; Pulse (207 # 2); ClearBuffer;
            Pulse 104] (209 # 2)); reflexivity.
Defined.

End SensorClaims.

(* ================================================================== *)
(** * Properties of the dead-reckoned pose *)
(* ================================================================== *)

Section TrackerFacts.
Import Tracker.
Local Open Scope R_scope.

(** Whole turns do not change a cosine or a sine. *)
Lemma cos_whole_turns (a : R) (k : Z) : cos (a + 2 * IZR k * PI) = cos a.
Proof.
  destruct (Z_le_gt_dec 0 k) as [Hk | Hk].
  - rewrite <- (Z2Nat.id k Hk), <- INR_IZR_INZ. apply cos_period.
  - assert (Hn : (0 <= - k)%Z) by lia.
    rewrite <- (cos_period (a + 2 * IZR k * PI) (Z.to_nat (- k))).
    rewrite INR_IZR_INZ, (Z2Nat.id _ Hn), opp_IZR.
    f_equal. ring.
Qed.

Lemma sin_whole_turns (a : R) (k : Z) : sin (a + 2 * IZR k * PI) = sin a.
Proof.
  destruct (Z_le_gt_dec 0 k) as [Hk | Hk].
  - rewrite <- (Z2Nat.id k Hk), <- INR_IZR_INZ. apply sin_period.
  - assert (Hn : (0 <= - k)%Z) by lia.
    rewrite <- (sin_period (a + 2 * IZR k * PI) (Z.to_nat (- k))).
    rewrite INR_IZR_INZ, (Z2Nat.id _ Hn), opp_IZR.
    f_equal. ring.
Qed.

(** The angle of a heading and of its normal form differ by whole turns. *)
Lemma radians_mod (h : Z) :
  radians h = radians (h mod 360) + 2 * IZR (h / 360) * PI.
Proof.
  unfold radians.
  rewrite (Z.div_mod h 360) at 1 by lia.
  rewrite plus_IZR, mult_IZR. field.
Qed.

Lemma cos_radians_mod (h : Z) : cos (radians (h mod 360)) = cos (radians h).
Proof. rewrite (radians_mod h). symmetry. apply cos_whole_turns. Qed.

Lemma sin_radians_mod (h : Z) : sin (radians (h mod 360)) = sin (radians h).
Proof. rewrite (radians_mod h). symmetry. apply sin_whole_turns. Qed.

(** [update_position] on each of the four movement commands. *)
Lemma update_forward (n : Z) (p : PositionTracker) :
  update_position "forward" n p =
  {| x := x p + IZR (n * step_size p) * cos (radians (heading p));
     y := y p + IZR (n * step_size p) * sin (radians (heading p));
     heading := (heading p mod 360)%Z;
     step_size := step_size p |}.
Proof. reflexivity. Qed.

Lemma update_backward (n : Z) (p : PositionTracker) :
  update_position "backward" n p =
  {| x := x p - IZR (n * step_size p) * cos (radians (heading p));
     y := y p - IZR (n * step_size p) * sin (radians (heading p));
     heading := (heading p mod 360)%Z;
     step_size := step_size p |}.
Proof. reflexivity. Qed.

Lemma update_turn_left (n : Z) (p : PositionTracker) :
  update_position "turn left" n p =
  {| x := x p; y := y p;
     heading := ((heading p + 45 * n) mod 360)%Z;
     step_size := step_size p |}.
Proof. reflexivity. Qed.

Lemma update_turn_right (n : Z) (p : PositionTracker) :
  update_position "turn right" n p =
  {| x := x p; y := y p;
     heading := ((heading p - 45 * n) mod 360)%Z;
     step_size := step_size p |}.
Proof. reflexivity. Qed.

(** [update_position] on the six commands of the actuator: [stand] and [sit]
    match no branch and only have the heading normalised. *)
Lemma update_position_on_commands (c : command) (steps : Z)
  (p : PositionTracker) :
  update_position (command_name c) steps p =
  let d := IZR (steps * step_size p) in
  let a := radians (heading p) in
  match c with
  | Forward =>
      mkTracker (x p + d * cos a) (y p + d * sin a)
        (heading p mod 360) (step_size p)
  | Backward =>
      mkTracker (x p - d * cos a) (y p - d * sin a)
        (heading p mod 360) (step_size p)
  | TurnLeft =>
      mkTracker (x p) (y p) ((heading p + 45 * steps) mod 360) (step_size p)
  | TurnRight =>
      mkTracker (x p) (y p) ((heading p - 45 * steps) mod 360) (step_size p)
  | Stand | Sit =>
      mkTracker (x p) (y p) (heading p mod 360) (step_size p)
  end.
Proof. destruct c; reflexivity. Qed.

(** The heading a call leaves is the normal form of the heading its branch
    computed. *)
Lemma update_position_heading_mod (action : string) (steps : Z)
  (p : PositionTracker) :
  exists h : Z, heading (update_position action steps p) = (h mod 360)%Z.
Proof.
  unfold update_position.
  destruct (contains "forward" action); [eexists; reflexivity|].
  destruct (contains "backward" action); [eexists; reflexivity|].
  destruct (contains "turn left" action); [eexists; reflexivity|].
  destruct (contains "turn right" action); eexists; reflexivity.
Qed.

(** C9.  After every call of [update_position], from every pose, for every
    action name (those of the six commands among them) and every step
    count, the heading lies in [[0, 360)]. *)
Theorem update_position_heading_normalized
  (action : string) (steps : Z) (p : PositionTracker) :
  (0 <= heading (update_position action steps p) < 360)%Z.
Proof.
  destruct (update_position_heading_mod action steps p) as [h ->].
  apply Z.mod_pos_bound. lia.
Qed.

(** A full circle of left turns, and a step count walked there and back. *)
Lemma turn_left_full_circle (p : PositionTracker) :
  update_position "turn left" 8 p =
  {| x := x p; y := y p; heading := (heading p mod 360)%Z;
     step_size := step_size p |}.
Proof.
  rewrite update_turn_left. f_equal.
  replace (heading p + 45 * 8)%Z with (heading p + 1 * 360)%Z by lia.
  apply Z.mod_add. lia.
Qed.

Lemma forward_then_backward (p : PositionTracker) (n : Z) :
  update_position "backward" n (update_position "forward" n p) =
  {| x := x p; y := y p; heading := (heading p mod 360)%Z;
     step_size := step_size p |}.
Proof.
  rewrite update_backward, update_forward. simpl.
  rewrite cos_radians_mod, sin_radians_mod.
  f_equal; try ring.
  apply Z.mod_mod. lia.
Qed.

Lemma normalized_pose (p : PositionTracker) :
  (0 <= heading p < 360)%Z ->
  {| x := x p; y := y p; heading := (heading p mod 360)%Z;
     step_size := step_size p |} = p.
Proof.
  intros Hh. rewrite (Z.mod_small _ _ Hh). destruct p; reflexivity.
Qed.

(** C6.  Eight steps of [turn left] bring the heading back to its value
    modulo 360 and leave the position; [forward] then [backward] with the
    same step count bring [(x, y)] back exactly, over the reals, with the
    heading at its value modulo 360 after each of the two calls; on a pose
    whose heading is in [[0, 360)] the heading is unchanged throughout and
    both round trips give the pose back. *)
Theorem pose_round_trips (p : PositionTracker) (n : Z) :
  (heading (update_position "turn left" 8 p) = (heading p mod 360)%Z /\
   x (update_position "turn left" 8 p) = x p /\
   y (update_position "turn left" 8 p) = y p) /\
  (x (update_position "backward" n (update_position "forward" n p)) = x p /\
   y (update_position "backward" n (update_position "forward" n p)) = y p /\
   heading (update_position "forward" n p) = (heading p mod 360)%Z /\
   heading (update_position "backward" n (update_position "forward" n p))
     = (heading p mod 360)%Z) /\
  ((0 <= heading p < 360)%Z ->
   update_position "turn left" 8 p = p /\
   heading (update_position "forward" n p) = heading p /\
   update_position "backward" n (update_position "forward" n p) = p).
Proof.
  rewrite turn_left_full_circle, forward_then_backward, update_forward.
  simpl. repeat split; try reflexivity.
  - apply normalized_pose; assumption.
  - apply Z.mod_small; assumption.
  - apply normalized_pose; assumption.
Qed.

(** C6 on the initial pose, with 3 steps forward and back. *)
Lemma pose_round_trips_witness :
  (0 <= heading Tracker.init < 360)%Z /\
  update_position "turn left" 8 Tracker.init = Tracker.init /\
  update_position "backward" 3 (update_position "forward" 3 Tracker.init)
    = Tracker.init.
Proof.
  assert (H : (0 <= heading Tracker.init < 360)%Z) by (simpl; lia).
  split; [exact H|].
  destruct (proj2 (proj2 (pose_round_trips Tracker.init 3)) H) as [Hl [_ Hb]].
  split; assumption.
Defined.

End TrackerFacts.

(* ================================================================== *)
(** * Properties of the bot *)
(* ================================================================== *)

Section BotFacts.
Import Tracker Bot.

Variable gpio : bool.
Variable sense : Z -> nat -> list Q.

Local Abbreviation collect := (collect_radiation_sample gpio sense).
Local Abbreviation run_script := (Bot.run_script gpio sense).
Local Abbreviation run_op := (Bot.run_op gpio sense).

(** What one dwell leaves in the bot. *)
Lemma collect_fst (d : Z) (b : RadiationBot) :
  fst (collect d b) = average (sense d (List.length (radiation_data b))).
Proof. reflexivity. Qed.

Lemma collect_tracker (d : Z) (b : RadiationBot) :
  tracker (snd (collect d b)) = tracker b.
Proof. reflexivity. Qed.

Lemma collect_actions (d : Z) (b : RadiationBot) :
  actions (snd (collect d b)) = actions b.
Proof. reflexivity. Qed.

Lemma collect_is_exploring (d : Z) (b : RadiationBot) :
  is_exploring (snd (collect d b)) = is_exploring b.
Proof. reflexivity. Qed.

Lemma collect_data (d : Z) (b : RadiationBot) :
  exists dp : DataPoint,
    radiation_data (snd (collect d b)) = radiation_data b ++ [dp] /\
    position dp = (x (tracker b), y (tracker b)) /\
    dp_heading dp = heading (tracker b) /\
    radiation_cpm dp = fst (collect d b) /\
    readings dp = sense d (List.length (radiation_data b)).
Proof. eexists. repeat split. Qed.

Lemma collect_max (d : Z) (b : RadiationBot) :
  max_radiation (snd (collect d b)) =
    (if Qltb (max_radiation b) (fst (collect d b))
     then fst (collect d b) else max_radiation b) /\
  max_radiation_pos (snd (collect d b)) =
    (if Qltb (max_radiation b) (fst (collect d b))
     then (x (tracker b), y (tracker b)) else max_radiation_pos b).
Proof. split; reflexivity. Qed.

(** Scripts compose, and a script touches neither [is_exploring] nor, through
    its movements, the collected data. *)
Lemma run_script_app (s1 s2 : list op) (b : RadiationBot) :
  run_script (s1 ++ s2) b = run_script s2 (run_script s1 b).
Proof. apply fold_left_app. Qed.

Lemma run_op_is_exploring (b : RadiationBot) (o : op) :
  is_exploring (run_op b o) = is_exploring b.
Proof. destruct o; reflexivity. Qed.

Lemma run_script_is_exploring (s : list op) (b : RadiationBot) :
  is_exploring (run_script s b) = is_exploring b.
Proof.
  revert b. induction s as [|o s IH]; intros b; simpl.
  - reflexivity.
  - rewrite IH. apply run_op_is_exploring.
Qed.

Lemma run_script_tracker (s : list op) (b : RadiationBot) :
  tracker (run_script s b) = fold_left track_op s (tracker b).
Proof.
  revert b. induction s as [|o s IH]; intros b; simpl.
  - reflexivity.
  - rewrite IH. destruct o; reflexivity.
Qed.

Lemma run_script_actions (s : list op) (b : RadiationBot) :
  actions (run_script s b) = actions b ++ moves_of s.
Proof.
  revert b. induction s as [|o s IH]; intros b; simpl.
  - symmetry. apply app_nil_r.
  - rewrite IH. destruct o; simpl.
    + reflexivity.
    + rewrite <- app_assoc. reflexivity.
Qed.

(** The data points a script adds are taken at its dwell poses, in order. *)
Lemma run_script_data (s : list op) (b : RadiationBot) :
  exists new : list DataPoint,
    radiation_data (run_script s b) = radiation_data b ++ new /\
    map position new = map (fun p => (x p, y p)) (dwell_poses s (tracker b)) /\
    map dp_heading new = map heading (dwell_poses s (tracker b)).
Proof.
  revert b. induction s as [|o s IH]; intros b.
  - exists []. simpl. rewrite app_nil_r. auto.
  - change (run_script (o :: s) b) with (run_script s (run_op b o)).
    destruct (IH (run_op b o)) as [new [Hn [Hps Hhs]]].
    destruct o as [d | action steps]; cbn [dwell_poses run_op] in *.
    + destruct (collect_data d b) as [dp [Hd [Hp [Hh _]]]].
      rewrite collect_tracker in Hps, Hhs.
      exists (dp :: new). rewrite Hn, Hd, <- app_assoc.
      cbn [map app]. rewrite Hp, Hh, Hps, Hhs. auto.
    + exists new. rewrite Hn. auto.
Qed.

(** Movements leave the collected data and the running maximum alone. *)
Lemma drive_keeps_data (moves : list (string * Z)) (b : RadiationBot) :
  radiation_data (drive moves b) = radiation_data b /\
  max_radiation (drive moves b) = max_radiation b /\
  max_radiation_pos (drive moves b) = max_radiation_pos b.
Proof.
  revert b. induction moves as [|m moves IH]; intros b; simpl.
  - auto.
  - destruct (IH (move_and_track (fst m) (snd m) b)) as [H1 [H2 H3]].
    unfold drive in *. rewrite H1, H2, H3. auto.
Qed.

(** One dwell after some movements: the stored maximum is replaced exactly
    when the average of the dwell is strictly above it. *)
Lemma collect_after_drive (moves : list (string * Z)) (d : Z)
  (b : RadiationBot) :
  let b' := snd (collect d (drive moves b)) in
  let cpm := average (sense d (List.length (radiation_data b))) in
  List.length (radiation_data b') = S (List.length (radiation_data b)) /\
  ((max_radiation b < cpm)%Q ->
     max_radiation b' = cpm /\
     max_radiation_pos b' =
       (x (tracker (drive moves b)), y (tracker (drive moves b)))) /\
  ((cpm <= max_radiation b)%Q ->
     max_radiation b' = max_radiation b /\
     max_radiation_pos b' = max_radiation_pos b).
Proof.
  intros b' cpm.
  destruct (drive_keeps_data moves b) as [Hd [Hm Hp]].
  destruct (collect_max d (drive moves b)) as [Hmax Hpos].
  destruct (collect_data d (drive moves b)) as [dp [Hdata _]].
  fold b' in Hmax, Hpos, Hdata.
  rewrite collect_fst, Hd, Hm in Hmax, Hpos. fold cpm in Hmax, Hpos.
  rewrite Hp in Hpos.
  split; [|split].
  - rewrite Hdata, length_app, Hd. simpl. lia.
  - intros Hlt. apply Qltb_true_iff in Hlt. rewrite Hlt in Hmax, Hpos. auto.
  - intros Hle. apply Qltb_false_iff in Hle. rewrite Hle in Hmax, Hpos. auto.
Qed.

(** While [is_exploring] is set, the body of the inner loop performs the
    script of its cell. *)
Lemma explore_cell_runs_script (n : nat) (D : Z) (row col : nat)
  (b : RadiationBot) :
  is_exploring b = true ->
  explore_cell gpio sense n D row col b = run_script (cell_script n D row col) b.
Proof.
  intros He. unfold explore_cell, cell_script. rewrite He. simpl negb. cbv iota.
  destruct (Z.of_nat col <? Z.of_nat n - 1)%Z; [reflexivity|].
  destruct (Z.of_nat row <? Z.of_nat n - 1)%Z; [|reflexivity].
  destruct (Z.of_nat row mod 2 =? 0)%Z; reflexivity.
Qed.

Lemma explore_cells_run_script (n : nat) (D : Z) (row : nat) (cols : list nat)
  (b : RadiationBot) :
  is_exploring b = true ->
  fold_left (fun b' col => explore_cell gpio sense n D row col b') cols b =
  run_script (flat_map (cell_script n D row) cols) b.
Proof.
  revert b. induction cols as [|col cols IH]; intros b He.
  - reflexivity.
  - cbn [fold_left flat_map]. rewrite run_script_app.
    rewrite (explore_cell_runs_script n D row col b He).
    apply IH. rewrite run_script_is_exploring. exact He.
Qed.

Lemma explore_rows_run_script (n : nat) (D : Z) (rows : list nat)
  (b : RadiationBot) :
  is_exploring b = true ->
  fold_left (explore_row gpio sense n D) rows b =
  run_script
    (flat_map (fun row => flat_map (cell_script n D row) (seq 0 n)) rows) b.
Proof.
  revert b. induction rows as [|row rows IH]; intros b He.
  - reflexivity.
  - cbn [fold_left flat_map]. rewrite run_script_app.
    unfold explore_row at 2.
    rewrite (explore_cells_run_script n D row (seq 0 n) b He).
    apply IH. rewrite run_script_is_exploring. exact He.
Qed.

(** [explore_grid] performs [grid_script] between setting and clearing
    [is_exploring]. *)
Lemma explore_grid_runs_script (n : nat) (D : Z) (b : RadiationBot) :
  explore_grid gpio sense n D b =
  set_exploring false (run_script (grid_script n D) (set_exploring true b)).
Proof.
  unfold explore_grid, grid_script.
  rewrite explore_rows_run_script; reflexivity.
Qed.

(** The probing phase performs [probe_script]. *)
Lemma probe_directions_runs_script (current : Q) (b : RadiationBot) :
  bot (probe_directions gpio sense current b) = run_script probe_script b.
Proof. reflexivity. Qed.

End BotFacts.

Section MaxRecordClaim.
Import Tracker Bot.

Variable gpio : bool.
Variable sense : Z -> nat -> list Q.

Local Abbreviation collect := (collect_radiation_sample gpio sense).

(** C8.  The stored maximum is the strict running maximum: a dwell replaces
    [max_radiation] and [max_radiation_pos] by its average and its position
    when the average is strictly above the stored value, and leaves both
    otherwise.  From a new bot, four dwells with averages 10, 5, 30 and 8,
    with any movements before each, leave the maximum 30 and the position of
    the third data point, whose CPM is that 30. *)
Theorem max_record_is_strict_running_maximum :
  (forall (d : Z) (b : RadiationBot),
     (max_radiation b < fst (collect d b))%Q ->
     max_radiation (snd (collect d b)) = fst (collect d b) /\
     max_radiation_pos (snd (collect d b)) = (x (tracker b), y (tracker b))) /\
  (forall (d : Z) (b : RadiationBot),
     (fst (collect d b) <= max_radiation b)%Q ->
     max_radiation (snd (collect d b)) = max_radiation b /\
     max_radiation_pos (snd (collect d b)) = max_radiation_pos b) /\
  (forall (m1 m2 m3 m4 : list (string * Z)) (d1 d2 d3 d4 : Z),
     (average (sense d1 0) == 10)%Q ->
     (average (sense d2 1) == 5)%Q ->
     (average (sense d3 2) == 30)%Q ->
     (average (sense d4 3) == 8)%Q ->
     let b1 := snd (collect d1 (drive m1 Bot.init)) in
     let b2 := snd (collect d2 (drive m2 b1)) in
     let b3 := snd (collect d3 (drive m3 b2)) in
     let b4 := snd (collect d4 (drive m4 b3)) in
     (max_radiation b4 == 30)%Q /\
     max_radiation_pos b4
       = (x (tracker (drive m3 b2)), y (tracker (drive m3 b2))) /\
     exists dp : DataPoint,
       nth_error (radiation_data b4) 2 = Some dp /\
       (radiation_cpm dp == 30)%Q /\
       position dp = max_radiation_pos b4).
Proof.
  split; [|split].
  - intros d b Hlt. destruct (collect_max gpio sense d b) as [Hm Hp].
    apply Qltb_true_iff in Hlt. rewrite Hlt in Hm, Hp. auto.
  - intros d b Hle. destruct (collect_max gpio sense d b) as [Hm Hp].
    apply Qltb_false_iff in Hle. rewrite Hle in Hm, Hp. auto.
  - intros m1 m2 m3 m4 d1 d2 d3 d4 A1 A2 A3 A4 b1 b2 b3 b4.
    (* first dwell: 10 replaces the initial 0 *)
    destruct (collect_after_drive gpio sense m1 d1 Bot.init) as [L1 [U1 _]].
    fold b1 in L1, U1.
    change (List.length (radiation_data Bot.init)) with 0%nat in L1, U1.
    change (max_radiation Bot.init) with 0%Q in U1.
    destruct U1 as [M1 _]; [rewrite A1; reflexivity|].
    (* second dwell: 5 is not above 10 *)
    destruct (collect_after_drive gpio sense m2 d2 b1) as [L2 [_ K2]].
    fold b2 in L2, K2. rewrite L1, M1 in K2. rewrite L1 in L2.
    destruct K2 as [M2 _]; [rewrite A1, A2; discriminate|].
    (* third dwell: 30 is above 10 *)
    destruct (collect_after_drive gpio sense m3 d3 b2) as [L3 [U3 _]].
    fold b3 in L3, U3. rewrite L2, M2 in U3. rewrite L2 in L3.
    destruct U3 as [M3 P3]; [rewrite A1, A3; reflexivity|].
    (* fourth dwell: 8 is not above 30 *)
    destruct (collect_after_drive gpio sense m4 d4 b3) as [L4 [_ K4]].
    fold b4 in L4, K4. rewrite L3, M3, P3 in K4.
    destruct K4 as [M4 P4]; [rewrite A3, A4; discriminate|].
    split; [rewrite M4; exact A3|]. split; [exact P4|].
    (* the third data point *)
    destruct (collect_data gpio sense d3 (drive m3 b2))
      as [dp3 [D3 [Hpos3 [_ [Hcpm3 _]]]]].
    destruct (collect_data gpio sense d4 (drive m4 b3)) as [dp4 [D4 _]].
    fold b3 in D3. fold b4 in D4.
    destruct (drive_keeps_data m3 b2) as [E3 _].
    destruct (drive_keeps_data m4 b3) as [E4 _].
    rewrite E3 in D3. rewrite E4, D3 in D4.
    exists dp3. split; [|split].
    + rewrite D4, <- app_assoc. rewrite nth_error_app2; rewrite L2; [|lia].
      rewrite Nat.sub_diag. reflexivity.
    + rewrite Hcpm3, collect_fst, E3, L2. exact A3.
    + rewrite Hpos3, P4. reflexivity.
Qed.

End MaxRecordClaim.

(** C8 on dwells that poll [10], [4; 6], [20; 40] and [8], with movements
    between them. *)
Lemma max_record_witness :
  let sense := fun (_ : Z) (k : nat) =>
                 nth k [[10%Q]; [4%Q; 6%Q]; [20%Q; 40%Q]; [8%Q]] [] in
  let b4 :=
    snd (Bot.collect_radiation_sample true sense 1
      (Bot.drive [("turn left"%string, 1%Z)]
        (snd (Bot.collect_radiation_sample true sense 2
          (Bot.drive [("forward"%string, 3%Z)]
            (snd (Bot.collect_radiation_sample true sense 2
              (Bot.drive [("turn right"%string, 2%Z);
                          ("forward"%string, 1%Z)]
                (snd (Bot.collect_radiation_sample true sense 2
                  (Bot.drive [] Bot.init))))))))))) in
  (Bot.max_radiation b4 == 30)%Q.
Proof.
  intros sense b4.
  apply (proj2 (proj2 (max_record_is_strict_running_maximum true sense))
           [] [("turn right"%string, 2%Z); ("forward"%string, 1%Z)]
           [("forward"%string, 3%Z)] [("turn left"%string, 1%Z)]
           2%Z 2%Z 2%Z 1%Z); reflexivity.
Defined.

(* ================================================================== *)
(** * The path of the grid scan and of the probing phase *)
(* ================================================================== *)

Section PathFacts.
Import Tracker Bot.
Local Open Scope R_scope.

(** The angles the scan meets from heading 0. *)
Lemma radians_0 : radians 0 = 0.
Proof. unfold radians. field. Qed.

Lemma radians_270 : radians 270 = 3 * (PI / 2).
Proof. unfold radians. field. Qed.

Lemma cos_radians_315 : cos (radians 315) = / sqrt 2.
Proof.
  replace (radians 315) with (- (PI / 4) + 2 * IZR 1 * PI)
    by (unfold radians; field).
  rewrite cos_whole_turns, cos_neg, cos_PI4. unfold Rdiv. ring.
Qed.

Lemma sin_radians_315 : sin (radians 315) = - / sqrt 2.
Proof.
  replace (radians 315) with (- (PI / 4) + 2 * IZR 1 * PI)
    by (unfold radians; field).
  rewrite sin_whole_turns, sin_neg, sin_PI4. unfold Rdiv. ring.
Qed.

(** [update_position] on a pose given by its fields. *)
Lemma forward_at (X Y : R) (h ss n : Z) :
  update_position "forward" n (mkTracker X Y h ss) =
  mkTracker (X + IZR (n * ss) * cos (radians h))
            (Y + IZR (n * ss) * sin (radians h)) (h mod 360) ss.
Proof. reflexivity. Qed.

Lemma turn_right_at (X Y : R) (h ss n : Z) :
  update_position "turn right" n (mkTracker X Y h ss) =
  mkTracker X Y ((h - 45 * n) mod 360) ss.
Proof. reflexivity. Qed.

Lemma turn_left_at (X Y : R) (h ss n : Z) :
  update_position "turn left" n (mkTracker X Y h ss) =
  mkTracker X Y ((h + 45 * n) mod 360) ss.
Proof. reflexivity. Qed.

Lemma tracker_eq (X X' Y Y' : R) (h ss : Z) :
  X = X' -> Y = Y' -> mkTracker X Y h ss = mkTracker X' Y' h ss.
Proof. intros -> ->. reflexivity. Qed.

(** The script of the 3 by 3 scan, written out. *)
Lemma grid_script_3 (D : Z) :
  grid_script 3 D =
  [Dwell 2; Move "forward" D; Dwell 2; Move "forward" D; Dwell 2;
   Move "turn right" 1; Move "forward" D; Move "turn right" 1;
   Dwell 2; Move "forward" D; Dwell 2; Move "forward" D; Dwell 2;
   Move "turn left" 1; Move "forward" D; Move "turn left" 1;
   Dwell 2; Move "forward" D; Dwell 2; Move "forward" D; Dwell 2].
Proof. reflexivity. Qed.

(** Replaces each [a mod b] on closed integers by its value. *)
Ltac eval_headings :=
  repeat match goal with
  | |- context [Z.modulo ?a ?b] =>
      let v := eval vm_compute in (Z.modulo a b) in
      change (Z.modulo a b) with v
  end.

(** The nine poses at which the 3 by 3 scan dwells when it starts at heading
    0: with [d] the length of one advance and [r = d / sqrt 2], a row along
    [+x], a diagonal advance, a row along [-y], a diagonal advance, a row
    along [+x]. *)
Lemma grid_3_dwell_poses (X Y : R) (ss D : Z) :
  let d := IZR (D * ss) in
  let r := d / sqrt 2 in
  dwell_poses (grid_script 3 D) (mkTracker X Y 0 ss) =
  [mkTracker X Y 0 ss;
   mkTracker (X + d) Y 0 ss;
   mkTracker (X + 2 * d) Y 0 ss;
   mkTracker (X + 2 * d + r) (Y - r) 270 ss;
   mkTracker (X + 2 * d + r) (Y - r - d) 270 ss;
   mkTracker (X + 2 * d + r) (Y - r - 2 * d) 270 ss;
   mkTracker (X + 2 * d + 2 * r) (Y - 2 * r - 2 * d) 0 ss;
   mkTracker (X + 3 * d + 2 * r) (Y - 2 * r - 2 * d) 0 ss;
   mkTracker (X + 4 * d + 2 * r) (Y - 2 * r - 2 * d) 0 ss].
Proof.
  intros d r. rewrite grid_script_3. cbn [dwell_poses].
  repeat (first [rewrite forward_at | rewrite turn_right_at
                | rewrite turn_left_at]; eval_headings).
  rewrite ?radians_270, ?cos_3PI2, ?sin_3PI2, ?cos_radians_315,
    ?sin_radians_315, ?radians_0, ?cos_0, ?sin_0.
  fold d. unfold r, Rdiv.
  repeat (apply f_equal2; [apply tracker_eq; ring|]).
  reflexivity.
Qed.

(** Successive turns add up under the normalisation of the heading. *)
Lemma heading_mod_sub (h a b : Z) :
  (((h - a) mod 360 - b) mod 360 = (h - (a + b)) mod 360)%Z.
Proof. rewrite Zminus_mod_idemp_l. f_equal. lia. Qed.

Lemma heading_mod_add (h a b : Z) :
  (((h - a) mod 360 + b) mod 360 = (h - (a - b)) mod 360)%Z.
Proof. rewrite Zplus_mod_idemp_l. f_equal. lia. Qed.

(** The nine poses at which the 3 by 3 scan dwells, from any pose.  With [d]
    the length of one advance: a row along the heading [h], an advance along
    [h - 45], a row along [h - 90], an advance along [h - 45], a row along
    [h]. *)
Lemma grid_3_dwell_poses_from (X Y : R) (h ss D : Z) :
  let d := IZR (D * ss) in
  let c0 := cos (radians h) in
  let s0 := sin (radians h) in
  let c1 := cos (radians (h - 45)) in
  let s1 := sin (radians (h - 45)) in
  let c2 := cos (radians (h - 90)) in
  let s2 := sin (radians (h - 90)) in
  dwell_poses (grid_script 3 D) (mkTracker X Y h ss) =
  [mkTracker X Y h ss;
   mkTracker (X + d * c0) (Y + d * s0) (h mod 360) ss;
   mkTracker (X + 2 * d * c0) (Y + 2 * d * s0) (h mod 360) ss;
   mkTracker (X + 2 * d * c0 + d * c1) (Y + 2 * d * s0 + d * s1)
     ((h - 90) mod 360) ss;
   mkTracker (X + 2 * d * c0 + d * c1 + d * c2)
     (Y + 2 * d * s0 + d * s1 + d * s2) ((h - 90) mod 360) ss;
   mkTracker (X + 2 * d * c0 + d * c1 + 2 * d * c2)
     (Y + 2 * d * s0 + d * s1 + 2 * d * s2) ((h - 90) mod 360) ss;
   mkTracker (X + 2 * d * c0 + 2 * d * c1 + 2 * d * c2)
     (Y + 2 * d * s0 + 2 * d * s1 + 2 * d * s2) (h mod 360) ss;
   mkTracker (X + 3 * d * c0 + 2 * d * c1 + 2 * d * c2)
     (Y + 3 * d * s0 + 2 * d * s1 + 2 * d * s2) (h mod 360) ss;
   mkTracker (X + 4 * d * c0 + 2 * d * c1 + 2 * d * c2)
     (Y + 4 * d * s0 + 2 * d * s1 + 2 * d * s2) (h mod 360) ss].
Proof.
  intros d c0 s0 c1 s1 c2 s2. rewrite grid_script_3. cbn [dwell_poses].
  repeat (first [rewrite forward_at | rewrite turn_right_at
                | rewrite turn_left_at]).
  replace (h mod 360)%Z with ((h - 0) mod 360)%Z by (f_equal; lia).
  repeat (first [rewrite heading_mod_sub | rewrite heading_mod_add
                | rewrite Z.mod_mod by lia]).
  rewrite ?cos_radians_mod, ?sin_radians_mod.
  repeat match goal with
  | |- context [(h - ?a)%Z] =>
      progress (let v := eval vm_compute in a in change a with v)
  end.
  rewrite !Z.sub_0_r.
  fold d c0 s0 c1 s1 c2 s2.
  repeat (apply f_equal2; [apply tracker_eq; ring|]).
  reflexivity.
Qed.

(** A quarter turn to the right is neither a half turn nor no turn, and the
    direction it gives is perpendicular to the one it starts from. *)
Lemma quarter_turn_right (h : Z) :
  ((h - 90) mod 360 <> (h + 180) mod 360)%Z /\
  ((h - 90) mod 360 <> h mod 360)%Z /\
  cos (radians h) * cos (radians (h - 90))
    + sin (radians h) * sin (radians (h - 90)) = 0.
Proof.
  split; [|split].
  - intros H.
    assert (E : (((h + 180) - (h - 90)) mod 360 = 0)%Z)
      by (rewrite Zminus_mod, H, Z.sub_diag; reflexivity).
    replace (h + 180 - (h - 90))%Z with 270%Z in E by lia. discriminate.
  - intros H.
    assert (E : ((h - (h - 90)) mod 360 = 0)%Z)
      by (rewrite Zminus_mod, H, Z.sub_diag; reflexivity).
    replace (h - (h - 90))%Z with 90%Z in E by lia. discriminate.
  - rewrite <- cos_minus.
    replace (radians h - radians (h - 90)) with (PI / 2)
      by (unfold radians; rewrite minus_IZR; field).
    apply cos_PI2.
Qed.

(** A script dwells once per [Dwell], wherever it starts. *)
Lemma dwell_poses_app (s1 s2 : list op) (p : PositionTracker) :
  dwell_poses (s1 ++ s2) p =
  (dwell_poses s1 p ++ dwell_poses s2 (fold_left track_op s1 p))%list.
Proof.
  revert p. induction s1 as [|o s1 IH]; intros p.
  - reflexivity.
  - destruct o as [dw | action steps]; cbn [app dwell_poses fold_left track_op].
    + rewrite IH. reflexivity.
    + apply IH.
Qed.

Lemma cell_dwells_once (n : nat) (D : Z) (row col : nat)
  (p : PositionTracker) :
  List.length (dwell_poses (cell_script n D row col) p) = 1%nat.
Proof.
  unfold cell_script.
  destruct (Z.of_nat col <? Z.of_nat n - 1)%Z; [reflexivity|].
  destruct (Z.of_nat row <? Z.of_nat n - 1)%Z; [|reflexivity].
  destruct (Z.of_nat row mod 2 =? 0)%Z; reflexivity.
Qed.

Lemma row_dwells (n : nat) (D : Z) (row : nat) (cols : list nat)
  (p : PositionTracker) :
  List.length (dwell_poses (flat_map (cell_script n D row) cols) p)
    = List.length cols.
Proof.
  revert p. induction cols as [|col cols IH]; intros p.
  - reflexivity.
  - cbn [flat_map]. rewrite dwell_poses_app, length_app, cell_dwells_once, IH.
    reflexivity.
Qed.

Lemma rows_dwell (n : nat) (D : Z) (rows : list nat) (p : PositionTracker) :
  List.length
    (dwell_poses
       (flat_map (fun row => flat_map (cell_script n D row) (seq 0 n)) rows) p)
    = (List.length rows * n)%nat.
Proof.
  revert p. induction rows as [|row rows IH]; intros p.
  - reflexivity.
  - cbn [flat_map]. rewrite dwell_poses_app, length_app, row_dwells, IH.
    rewrite length_seq. reflexivity.
Qed.

(** A list of reals that increases strictly has no repetition. *)
Lemma increasing_NoDup (l : list R) : Sorted Rlt l -> NoDup l.
Proof.
  intros Hs. apply Sorted_StronglySorted in Hs; [|exact Rlt_trans].
  induction Hs as [|a l Hs IH Hall]; constructor.
  - intros Hin. rewrite Forall_forall in Hall.
    apply (Rlt_irrefl a), Hall, Hin.
  - exact IH.
Qed.

(** The nine positions are pairwise distinct when the advance is not empty:
    [x - y] grows from each to the next. *)
Lemma grid_3_positions_NoDup (X Y d r : R) :
  0 < d -> 0 < r ->
  NoDup
    [(X, Y); (X + d, Y); (X + 2 * d, Y);
     (X + 2 * d + r, Y - r); (X + 2 * d + r, Y - r - d);
     (X + 2 * d + r, Y - r - 2 * d);
     (X + 2 * d + 2 * r, Y - 2 * r - 2 * d);
     (X + 3 * d + 2 * r, Y - 2 * r - 2 * d);
     (X + 4 * d + 2 * r, Y - 2 * r - 2 * d)].
Proof.
  intros Hd Hr.
  apply (NoDup_map_inv (fun q : R * R => fst q - snd q)).
  apply increasing_NoDup. cbn [map fst snd].
  repeat (constructor; [|try (constructor; lra)]).
  constructor.
Qed.

End PathFacts.

Section ScanAndSeekClaims.
Import Tracker Bot.

Variable gpio : bool.
Variable sense : Z -> nat -> list Q.

(** What the scan of an [n] by [n] grid adds to the data, in terms of the
    dwell poses of its script, and the movements it makes. *)
Lemma explore_grid_data (n : nat) (D : Z) (b : RadiationBot) :
  exists new : list DataPoint,
    radiation_data (explore_grid gpio sense n D b) = radiation_data b ++ new /\
    map position new
      = map (fun p => (x p, y p)) (dwell_poses (grid_script n D) (tracker b)) /\
    map dp_heading new
      = map heading (dwell_poses (grid_script n D) (tracker b)).
Proof.
  rewrite explore_grid_runs_script.
  exact (run_script_data gpio sense (grid_script n D) (set_exploring true b)).
Qed.

Lemma explore_grid_actions (n : nat) (D : Z) (b : RadiationBot) :
  actions (explore_grid gpio sense n D b)
    = actions b ++ moves_of (grid_script n D).
Proof.
  rewrite explore_grid_runs_script.
  exact (run_script_actions gpio sense (grid_script n D)
           (set_exploring true b)).
Qed.

(** The scan of an [n] by [n] grid adds [n * n] data points, whatever the
    pose it starts from and the readings. *)
Lemma explore_grid_samples (n : nat) (D : Z) (b : RadiationBot) :
  List.length (radiation_data (explore_grid gpio sense n D b))
    = (List.length (radiation_data b) + n * n)%nat.
Proof.
  destruct (explore_grid_data n D b) as [new [Hnew [Hpos _]]].
  rewrite Hnew, length_app. f_equal.
  rewrite <- (length_map position), Hpos, length_map.
  unfold grid_script. rewrite rows_dwell, length_seq. reflexivity.
Qed.

(** C2, what the 3 by 3 scan does from any pose and with any
    [step_distance] [D].  [explore_grid 3 D] adds exactly 9 data points.  At
    the end of row 0 it turns one step right, advances [D] steps and turns
    one more step right; at the end of row 1 it does the same to the left.
    Each one-step turn counts 45 degrees and the second turn goes the same
    way as the first, so with [h] the heading at the start the rows are
    sampled at headings [h], [h - 90] and [h]: the middle row is neither
    run back along the first one (heading [h + 180]) nor parallel to it, but
    perpendicular to it, the advance between two rows is made along
    [h - 45], and the samples lie on a staircase, not on the cells of a
    grid.  The positions and the twelve movements are the ones listed. *)
Theorem explore_grid_3x3_is_a_staircase (D : Z) (b : RadiationBot) :
  let X := x (tracker b) in
  let Y := y (tracker b) in
  let h := heading (tracker b) in
  let d := IZR (D * step_size (tracker b)) in
  let c0 := cos (radians h) in
  let s0 := sin (radians h) in
  let c1 := cos (radians (h - 45)) in
  let s1 := sin (radians (h - 45)) in
  let c2 := cos (radians (h - 90)) in
  let s2 := sin (radians (h - 90)) in
  exists new : list DataPoint,
    radiation_data (explore_grid gpio sense 3 D b) = radiation_data b ++ new /\
    List.length new = 9%nat /\
    map dp_heading new =
      [h; h mod 360; h mod 360;
       (h - 90) mod 360; (h - 90) mod 360; (h - 90) mod 360;
       h mod 360; h mod 360; h mod 360]%Z /\
    ((h - 90) mod 360 <> (h + 180) mod 360)%Z /\
    ((h - 90) mod 360 <> h mod 360)%Z /\
    (c0 * c2 + s0 * s2 = 0)%R /\
    map position new =
      [(X, Y);
       (X + d * c0, Y + d * s0);
       (X + 2 * d * c0, Y + 2 * d * s0);
       (X + 2 * d * c0 + d * c1, Y + 2 * d * s0 + d * s1);
       (X + 2 * d * c0 + d * c1 + d * c2,
        Y + 2 * d * s0 + d * s1 + d * s2);
       (X + 2 * d * c0 + d * c1 + 2 * d * c2,
        Y + 2 * d * s0 + d * s1 + 2 * d * s2);
       (X + 2 * d * c0 + 2 * d * c1 + 2 * d * c2,
        Y + 2 * d * s0 + 2 * d * s1 + 2 * d * s2);
       (X + 3 * d * c0 + 2 * d * c1 + 2 * d * c2,
        Y + 3 * d * s0 + 2 * d * s1 + 2 * d * s2);
       (X + 4 * d * c0 + 2 * d * c1 + 2 * d * c2,
        Y + 4 * d * s0 + 2 * d * s1 + 2 * d * s2)]%R /\
    actions (explore_grid gpio sense 3 D b) =
      actions b ++
      [("forward"%string, D, 60); ("forward"%string, D, 60);
       ("turn right"%string, 1, 60); ("forward"%string, D, 60);
       ("turn right"%string, 1, 60);
       ("forward"%string, D, 60); ("forward"%string, D, 60);
       ("turn left"%string, 1, 60); ("forward"%string, D, 60);
       ("turn left"%string, 1, 60);
       ("forward"%string, D, 60); ("forward"%string, D, 60)]%Z.
Proof.
  intros X Y h d c0 s0 c1 s1 c2 s2.
  destruct (explore_grid_data 3 D b) as [new [Hnew [Hpos Hhead]]].
  assert (Hp : tracker b = mkTracker X Y h (step_size (tracker b)))
    by (unfold X, Y, h; destruct (tracker b); reflexivity).
  rewrite Hp, grid_3_dwell_poses_from in Hpos, Hhead.
  cbn [map x y heading] in Hpos, Hhead.
  destruct (quarter_turn_right h) as [Hback [Hsame Hperp]].
  exists new. split; [exact Hnew|].
  split; [|split; [|split; [|split; [|split; [|split]]]]].
  - rewrite <- (length_map position), Hpos. reflexivity.
  - exact Hhead.
  - exact Hback.
  - exact Hsame.
  - exact Hperp.
  - exact Hpos.
  - rewrite explore_grid_actions, grid_script_3. reflexivity.
Qed.

(** The scan from a pose at heading 0, with a positive step size and a
    positive [step_distance] [D]: the rows are sampled at headings 0, 270
    and 0, the advance between two rows is diagonal, of [d / sqrt 2] along
    each axis, and the 9 positions are pairwise distinct. *)
Lemma explore_grid_3x3 (D : Z) (b : RadiationBot) :
  heading (tracker b) = 0%Z ->
  (0 < step_size (tracker b))%Z ->
  (0 < D)%Z ->
  let X := x (tracker b) in
  let Y := y (tracker b) in
  let d := IZR (D * step_size (tracker b)) in
  let r := (d / sqrt 2)%R in
  exists new : list DataPoint,
    radiation_data (explore_grid gpio sense 3 D b) = radiation_data b ++ new /\
    List.length new = 9%nat /\
    NoDup (map position new) /\
    map dp_heading new = [0; 0; 0; 270; 270; 270; 0; 0; 0]%Z /\
    map position new =
      [(X, Y); (X + d, Y); (X + 2 * d, Y);
       (X + 2 * d + r, Y - r); (X + 2 * d + r, Y - r - d);
       (X + 2 * d + r, Y - r - 2 * d);
       (X + 2 * d + 2 * r, Y - 2 * r - 2 * d);
       (X + 3 * d + 2 * r, Y - 2 * r - 2 * d);
       (X + 4 * d + 2 * r, Y - 2 * r - 2 * d)]%R /\
    actions (explore_grid gpio sense 3 D b) =
      actions b ++
      [("forward"%string, D, 60); ("forward"%string, D, 60);
       ("turn right"%string, 1, 60); ("forward"%string, D, 60);
       ("turn right"%string, 1, 60);
       ("forward"%string, D, 60); ("forward"%string, D, 60);
       ("turn left"%string, 1, 60); ("forward"%string, D, 60);
       ("turn left"%string, 1, 60);
       ("forward"%string, D, 60); ("forward"%string, D, 60)]%Z.
Proof.
  intros Hh Hss HD X Y d r.
  destruct (explore_grid_data 3 D b) as [new [Hnew [Hpos Hhead]]].
  assert (Hp : tracker b = mkTracker X Y 0 (step_size (tracker b))).
  { unfold X, Y. rewrite <- Hh. destruct (tracker b); reflexivity. }
  rewrite Hp, grid_3_dwell_poses in Hpos, Hhead.
  fold d in Hpos, Hhead. fold r in Hpos, Hhead.
  cbn [map x y heading] in Hpos, Hhead.
  assert (Hd : (0 < d)%R).
  { unfold d. apply IZR_lt. nia. }
  assert (Hr : (0 < r)%R).
  { unfold r. apply Rdiv_lt_0_compat; [exact Hd|].
    apply sqrt_lt_R0. lra. }
  exists new. split; [exact Hnew|]. split; [|split; [|split; [|split]]].
  - rewrite <- (length_map position), Hpos. reflexivity.
  - rewrite Hpos. apply grid_3_positions_NoDup; assumption.
  - exact Hhead.
  - exact Hpos.
  - rewrite explore_grid_actions, grid_script_3. reflexivity.
Qed.

(** The pose and the decision the probing phase ends with: the position
    it started from, the heading four one-step right turns away, and the one
    probe compared with the baseline. *)
Lemma probing_phase_pose (current : Q) (b : RadiationBot) :
  tracker (bot (probe_directions gpio sense current b)) =
  mkTracker (x (tracker b)) (y (tracker b))
    ((heading (tracker b) - 180) mod 360) (step_size (tracker b)).
Proof.
  rewrite probe_directions_runs_script, run_script_tracker.
  cbn [probe_script fold_left track_op].
  rewrite forward_then_backward, !update_turn_right.
  cbn [x y heading step_size]. f_equal.
  repeat (rewrite Zminus_mod_idemp_l, <- ?Z.sub_add_distr).
  f_equal.
Qed.

Lemma probing_phase_decision (current : Q) (b : RadiationBot) :
  let test_radiation :=
    fst (collect_radiation_sample gpio sense 1
           (move_and_track "forward" 1 b)) in
  best_direction (probe_directions gpio sense current b) =
    (if Qltb current test_radiation then Some "forward"%string else None) /\
  best_radiation (probe_directions gpio sense current b) =
    (if Qltb current test_radiation then test_radiation else current).
Proof. split; reflexivity. Qed.

(** C1, what the probing phase of [find_radiation_source] does: it performs
    [forward 1], one dwell, [backward 1] and four one-step right turns.  So
    one heading is probed, not four: the phase adds exactly one data point;
    the position is restored, and the heading ends 180 degrees from where it
    started (at 180 from the initial heading 0). *)
Theorem probing_phase_probes_one_heading (current : Q) (b : RadiationBot) :
  let after := bot (probe_directions gpio sense current b) in
  (exists dp : DataPoint,
     radiation_data after = radiation_data b ++ [dp] /\
     dp_heading dp = (heading (tracker b) mod 360)%Z) /\
  actions after =
    actions b ++
    [("forward"%string, 1, 60); ("backward"%string, 1, 60);
     ("turn right"%string, 1, 60); ("turn right"%string, 1, 60);
     ("turn right"%string, 1, 60); ("turn right"%string, 1, 60)]%Z /\
  x (tracker after) = x (tracker b) /\
  y (tracker after) = y (tracker b) /\
  heading (tracker after) = ((heading (tracker b) - 180) mod 360)%Z /\
  heading
    (tracker (bot (probe_directions gpio sense current Bot.init))) = 180%Z.
Proof.
  intros after. unfold after. rewrite !probe_directions_runs_script.
  split; [|split; [|split; [|split; [|split]]]].
  - destruct (run_script_data gpio sense probe_script b)
      as [new [Hnew [Hpos Hhead]]].
    cbn [probe_script dwell_poses map] in Hpos, Hhead.
    destruct new as [|dp [|dp' new]]; try discriminate.
    exists dp. split; [exact Hnew|].
    injection Hhead as ->. reflexivity.
  - rewrite run_script_actions. reflexivity.
  - rewrite <- probe_directions_runs_script with (current := current).
    rewrite probing_phase_pose. reflexivity.
  - rewrite <- probe_directions_runs_script with (current := current).
    rewrite probing_phase_pose. reflexivity.
  - rewrite <- probe_directions_runs_script with (current := current).
    rewrite probing_phase_pose. reflexivity.
  - reflexivity.
Qed.

End ScanAndSeekClaims.

Section RunsOfTheNewBot.
Import Tracker Bot.

(** C2 on a new bot with [step_distance] 2, the scan that the key [g] of
    the controller starts.  The one-step turn at the end of row 0 is 45
    degrees (heading 315); the advance between rows is made at that
    heading; the second turn goes the same way as the first: rows are
    sampled at headings 0, 270 and 0, and the fourth sample is taken at
    [(40 + 20 / sqrt 2, - (20 / sqrt 2))], off the 20 cm grid of the first
    row. *)
Lemma explore_grid_3x3_leaves_the_grid :
  let b := explore_grid true (fun _ _ => [1%Q]) 3 2 Bot.init in
  heading (update_position "turn right" 1 Tracker.init) = 315%Z /\
  map dp_heading (radiation_data b)
    = [0; 0; 0; 270; 270; 270; 0; 0; 0]%Z /\
  ~ (forall dp : DataPoint,
       In dp (radiation_data b) -> dp_heading dp = heading Tracker.init) /\
  actions b =
    [("stand"%string, 1, 80);
     ("forward"%string, 2, 60); ("forward"%string, 2, 60);
     ("turn right"%string, 1, 60); ("forward"%string, 2, 60);
     ("turn right"%string, 1, 60);
     ("forward"%string, 2, 60); ("forward"%string, 2, 60);
     ("turn left"%string, 1, 60); ("forward"%string, 2, 60);
     ("turn left"%string, 1, 60);
     ("forward"%string, 2, 60); ("forward"%string, 2, 60)]%Z /\
  nth_error (map position (radiation_data b)) 3
    = Some ((40 + 20 / sqrt 2)%R, (- (20 / sqrt 2))%R).
Proof.
  intros b.
  destruct (explore_grid_data true (fun _ _ => [1%Q]) 3 2 Bot.init)
    as [new [Hnew [Hpos Hhead]]].
  fold b in Hnew. cbn [Bot.init radiation_data app] in Hnew.
  change (tracker Bot.init) with (mkTracker 0 0 0 10) in Hpos, Hhead.
  rewrite grid_3_dwell_poses in Hpos, Hhead.
  cbn [map x y heading] in Hpos, Hhead.
  assert (Hheads : map dp_heading (radiation_data b)
                   = [0; 0; 0; 270; 270; 270; 0; 0; 0]%Z)
    by (rewrite Hnew; exact Hhead).
  split; [reflexivity|]. split; [exact Hheads|]. split; [|split].
  - intros Hall.
    assert (Hin : In 270%Z (map dp_heading (radiation_data b)))
      by (rewrite Hheads; simpl; auto).
    apply in_map_iff in Hin. destruct Hin as [dp [Hdp Hin]].
    rewrite (Hall dp Hin) in Hdp. discriminate.
  - unfold b. rewrite explore_grid_actions, grid_script_3. reflexivity.
  - rewrite Hnew, Hpos. cbn [nth_error].
    change (2 * 10)%Z with 20%Z.
    f_equal. f_equal; unfold Rdiv; ring.
Qed.

(** The nine positions of that scan are pairwise distinct. *)
Lemma explore_grid_3x3_on_a_new_bot :
  heading (tracker Bot.init) = 0%Z /\
  (0 < step_size (tracker Bot.init))%Z /\
  exists new : list DataPoint,
    radiation_data (explore_grid true (fun _ _ => [1%Q]) 3 2 Bot.init) = new /\
    List.length new = 9%nat /\
    NoDup (map position new).
Proof.
  split; [reflexivity|]. split; [reflexivity|].
  destruct (explore_grid_3x3 true (fun _ _ => [1%Q]) 2 Bot.init
              eq_refl eq_refl eq_refl) as [new [Hnew [Hlen [Hnd _]]]].
  exists new. split; [exact Hnew|]. split; assumption.
Defined.

(** One pass of [find_radiation_source] on a new bot whose probe (reading
    1) improves on the baseline (reading 0): two data points in all, and the
    advance of 2 steps is made at heading 180, to the dead-reckoned position
    [(-20, 0)], on the side opposite to the probed one. *)
Lemma find_radiation_source_advances_at_180 :
  let sense := fun (_ : Z) (k : nat) => [inject_Z (Z.of_nat k)] in
  let r := find_radiation_source true sense 1 Bot.init in
  (fst r == 1)%Q /\
  List.length (radiation_data (snd r)) = 2%nat /\
  tracker (snd r) = mkTracker (-20) 0 180 10.
Proof.
  intros sense r.
  set (b1 := snd (collect_radiation_sample true sense 2 Bot.init)).
  assert (Hr : r = seek true sense 1 0%Q b1) by reflexivity.
  destruct (probing_phase_decision true sense 0%Q b1) as [Hdir Hbest].
  change (Qltb 0 _) with true in Hdir, Hbest. cbv iota in Hdir, Hbest.
  cbn [seek] in Hr. rewrite Hdir, Hbest in Hr. rewrite Hr.
  cbn [fst snd].
  split; [reflexivity|]. split.
  - change (radiation_data (move_and_track "forward" 2 ?b))
      with (radiation_data b).
    rewrite probe_directions_runs_script.
    destruct (run_script_data true sense probe_script b1)
      as [new [Hnew [Hpos _]]].
    rewrite Hnew, length_app, <- (length_map position new), Hpos.
    reflexivity.
  - change (tracker (move_and_track "forward" 2 ?b))
      with (update_position "forward" 2 (tracker b)).
    rewrite probing_phase_pose.
    change (tracker b1) with (mkTracker 0 0 0 10).
    cbn [x y heading step_size]. rewrite forward_at.
    change ((0 - 180) mod 360)%Z with 180%Z.
    replace (radians 180) with PI by (unfold radians; field).
    rewrite cos_PI, sin_PI. change (2 * 10)%Z with 20%Z.
    apply tracker_eq; ring.
Qed.

End RunsOfTheNewBot.

(* ================================================================== *)
(** * Further properties of the sensor *)
(* ================================================================== *)

Section PulseTrains.
Import Sensor Pulses.
Local Open Scope Q_scope.

(** The test of [_pulse_callback] at clock reading [t]. *)
Local Abbreviation younger t := (fun u : Q => Qltb (t - 60) u).

Lemma filter_filter_weaker {A : Type} (f g : A -> bool) (l : list A) :
  (forall a, f a = true -> g a = true) ->
  filter f (filter g l) = filter f l.
Proof.
  intros Hfg. induction l as [|a l IH]; simpl.
  - reflexivity.
  - destruct (g a) eqn:Eg; simpl.
    + rewrite IH. reflexivity.
    + destruct (f a) eqn:Ef; [|exact IH].
      rewrite (Hfg a Ef) in Eg. discriminate.
Qed.


Lemma younger_later (t t' u : Q) :
  t <= t' -> younger t' u = true -> younger t u = true.
Proof.
  intros Hle H. apply Qltb_true_iff in H. apply Qltb_true_iff. lra.
Qed.

Lemma last_cons_default {A : Type} (a d : A) (l : list A) :
  last (a :: l) d = last l a.
Proof.
  revert a d. induction l as [|b l IH]; intros a d.
  - reflexivity.
  - change (last (a :: b :: l) d) with (last (b :: l) d).
    rewrite IH. symmetry. apply IH.
Qed.

(** Along clock readings that never go back, the history is the window of
    the last reading over everything recorded. *)
Lemma pulses_buffer (ts : list Q) :
  forall (s : RadiationSensor) (tl : Q) (hist : list Q),
    pulse_buffer s = filter (younger tl) hist ->
    nondecreasing (tl :: ts) = true ->
    pulse_buffer (pulses ts s) = filter (younger (last ts tl)) (hist ++ ts).
Proof.
  induction ts as [|t ts IH]; intros s tl hist Hb Hs.
  - simpl. rewrite app_nil_r. exact Hb.
  - change (pulses (t :: ts) s) with (pulses ts (_pulse_callback t s)).
    change (nondecreasing (tl :: t :: ts))
      with (Qle_bool tl t && nondecreasing (t :: ts)) in Hs.
    apply andb_prop in Hs. destruct Hs as [Hle Hs].
    apply Qle_bool_iff in Hle.
    rewrite last_cons_default.
    replace (hist ++ t :: ts) with ((hist ++ [t]) ++ ts)
      by (rewrite <- app_assoc; reflexivity).
    apply IH; [|exact Hs].
    unfold _pulse_callback. cbn [pulse_buffer]. rewrite Hb.
    rewrite !filter_app, filter_filter_weaker.
    + reflexivity.
    + intros u. apply younger_later, Hle.
Qed.

Lemma pulses_fields (ts : list Q) (s : RadiationSensor) :
  pulse_count (pulses ts s) = (pulse_count s + Z.of_nat (List.length ts))%Z /\
  start_time (pulses ts s) = start_time s /\
  reading_interval (pulses ts s) = reading_interval s /\
  last_reading (pulses ts s) = last_reading s.
Proof.
  revert s. induction ts as [|t ts IH]; intros s.
  - simpl. repeat split. lia.
  - change (pulses (t :: ts) s) with (pulses ts (_pulse_callback t s)).
    destruct (IH (_pulse_callback t s)) as [Hc [Hs [Hi Hl]]].
    rewrite Hc, Hs, Hi, Hl. cbn [_pulse_callback pulse_count start_time
      reading_interval last_reading List.length].
    repeat split. lia.
Qed.

Lemma pulses_window (s : RadiationSensor) (ts : list Q) :
  pulse_buffer s = [] ->
  nondecreasing ts = true ->
  pulse_buffer (pulses ts s) = filter (younger (last ts 0)) ts.
Proof.
  intros Hb Hs. destruct ts as [|t ts]; [exact Hb|].
  change (pulses (t :: ts) s) with (pulses ts (_pulse_callback t s)).
  rewrite last_cons_default.
  apply (pulses_buffer ts (_pulse_callback t s) t [t]); [|exact Hs].
  unfold _pulse_callback. cbn [pulse_buffer]. rewrite Hb. reflexivity.
Qed.

(** X1.  The pulse history is a rolling window of 60 seconds: on a sensor
    whose history is empty (a new one, or one a dwell has just reset), after
    pulses at clock readings that never go back, the history holds exactly
    the readings strictly younger than 60 seconds relative to the last
    pulse, in order; [get_instant_cpm] is their number; and the counter has
    grown by the number of pulses. *)
Theorem pulse_history_is_rolling_window (s : RadiationSensor) (ts : list Q) :
  pulse_buffer s = [] ->
  nondecreasing ts = true ->
  pulse_buffer (pulses ts s) = filter (fun u => Qltb (last ts 0 - 60) u) ts /\
  get_instant_cpm (pulses ts s)
    = inject_Z (Z.of_nat
        (List.length (filter (fun u => Qltb (last ts 0 - 60) u) ts))) /\
  pulse_count (pulses ts s) = (pulse_count s + Z.of_nat (List.length ts))%Z.
Proof.
  intros Hb Hs. pose proof (pulses_window s ts Hb Hs) as Hw.
  split; [exact Hw|]. split.
  - unfold get_instant_cpm. rewrite Hw. reflexivity.
  - apply pulses_fields.
Qed.

(** X1 on pulses at 1, 30, 62, 70 and 95 s: the first two have left the
    window. *)
Lemma pulse_history_is_rolling_window_witness :
  pulse_buffer (pulses [1; 30; 62; 70; 95] (init 0)) = [62; 70; 95] /\
  get_instant_cpm (pulses [1; 30; 62; 70; 95] (init 0)) = 3 /\
  pulse_count (pulses [1; 30; 62; 70; 95] (init 0)) = 5%Z.
Proof.
  exact (pulse_history_is_rolling_window (init 0) [1; 30; 62; 70; 95]
           eq_refl eq_refl).
Defined.



End PulseTrains.

(* ================================================================== *)
(** * Pulses that arrive during a reading *)
(* ================================================================== *)

Section PulseContext.
Import Sensor Pulses Interleaving.
Local Open Scope Q_scope.

(** Cut after the assignment of [last_reading] and not interrupted,
    [get_reading] is the whole call; and so is [_pulse_callback] cut after
    the increment. *)
Lemma get_reading_cut (t : Q) (s : RadiationSensor) :
  get_reading_reset t (get_reading_compute t s) = get_reading t s.
Proof.
  unfold get_reading_reset, get_reading_compute, get_reading.
  destruct (Qle_bool (reading_interval s) (t - start_time s)); reflexivity.
Qed.

Lemma get_reading_not_interrupted (t : Q) (s : RadiationSensor) :
  get_reading_interrupted t [] s = get_reading t s.
Proof.
  unfold get_reading_interrupted. rewrite <- get_reading_cut.
  destruct (get_reading_compute t s). reflexivity.
Qed.

Lemma pulse_callback_cut (t : Q) (s : RadiationSensor) :
  _pulse_callback_store t (_pulse_callback_count s) = _pulse_callback t s.
Proof. reflexivity. Qed.

(** The counter after [get_reading]. *)
Lemma get_reading_pulse_count (t : Q) (s : RadiationSensor) :
  pulse_count (snd (get_reading t s)) =
  if Qle_bool (reading_interval s) (t - start_time s) then 0%Z
  else pulse_count s.
Proof.
  unfold get_reading.
  destruct (Qle_bool (reading_interval s) (t - start_time s)); reflexivity.
Qed.

(** Whole calls lose no pulse: in every sequence of calls of
    [_pulse_callback], [get_reading] and buffer resets, each pulse that
    arrived has been counted by one estimate or is still in
    [pulse_count]. *)
Lemma whole_calls_count_every_pulse (es : list event) (s : RadiationSensor) :
  (counted es s + pulse_count (run es s) = pulse_count s + arrived es)%Z.
Proof.
  revert s. induction es as [|e es IH]; intros s.
  - cbn. lia.
  - change (run (e :: es) s) with (run es (step s e)).
    cbn [counted arrived]. specialize (IH (step s e)).
    destruct e as [t | t |].
    + change (pulse_count (step s (Pulse t))) with (pulse_count s + 1)%Z
        in IH. lia.
    + change (pulse_count (step s (Read t)))
        with (pulse_count (snd (get_reading t s))) in IH.
      rewrite get_reading_pulse_count in IH.
      destruct (Qle_bool (reading_interval s) (t - start_time s)); lia.
    + change (pulse_count (step s ClearBuffer)) with (pulse_count s) in IH.
      lia.
Qed.

(** The history after a train of pulses depends only on the history before
    it. *)
Lemma pulses_buffer_from (ts : list Q) (s s' : RadiationSensor) :
  pulse_buffer s = pulse_buffer s' ->
  pulse_buffer (pulses ts s) = pulse_buffer (pulses ts s').
Proof.
  revert s s'. induction ts as [|t ts IH]; intros s s' H.
  - exact H.
  - change (pulses (t :: ts) s) with (pulses ts (_pulse_callback t s)).
    change (pulses (t :: ts) s') with (pulses ts (_pulse_callback t s')).
    apply IH. cbn [_pulse_callback pulse_buffer]. rewrite H. reflexivity.
Qed.

(** C4, what the unprotected sensor does with pulses that arrive while
    [get_reading] computes a new estimate.  When the callback runs [n] times
    between the assignment of [last_reading] and the reset of the counter,
    the call returns the estimate of a read made before the pulses and
    leaves the sensor with the pulses in its history and the counter at 0:
    the estimate counted [pulse_count s] pulses and none is left for the
    next one, so [n] pulses are counted by no estimate.  Whole calls lose
    none: with the pulses first the estimate counts [pulse_count s + n],
    with the read first the counter holds [n] afterwards, and in every
    sequence of whole calls with [n] pulses the estimates and the counter
    account for [pulse_count s + n]. *)
Theorem pulses_during_get_reading_are_lost (t : Q) (arrivals : list Q)
  (s : RadiationSensor) :
  Qle_bool (reading_interval s) (t - start_time s) = true ->
  let n := Z.of_nat (List.length arrivals) in
  let r := get_reading_interrupted t arrivals s in
  fst r = fst (get_reading t s) /\
  snd r = {| pulse_count := 0;
             start_time := t;
             reading_interval := reading_interval s;
             last_reading := fst (get_reading t s);
             pulse_buffer := pulse_buffer (pulses arrivals s) |} /\
  (counted [Read t] s + pulse_count (snd r) = pulse_count s)%Z /\
  counted [Read t] (pulses arrivals s) = (pulse_count s + n)%Z /\
  pulse_count (pulses arrivals (snd (get_reading t s))) = n /\
  forall es : list event,
    arrived es = n ->
    (counted es s + pulse_count (run es s) = pulse_count s + n)%Z.
Proof.
  intros Hdue n r.
  assert (Hr : r =
    (fst (get_reading t s),
     {| pulse_count := 0;
        start_time := t;
        reading_interval := reading_interval s;
        last_reading := fst (get_reading t s);
        pulse_buffer := pulse_buffer (pulses arrivals s) |})).
  { unfold r, get_reading_interrupted, get_reading_compute, get_reading.
    rewrite Hdue. cbn [get_reading_reset fst].
    match goal with
    | |- context [pulses arrivals ?s1] =>
        destruct (pulses_fields arrivals s1) as [_ [_ [Hi Hl]]];
        rewrite Hi, Hl, (pulses_buffer_from arrivals s1 s eq_refl)
    end.
    reflexivity. }
  rewrite Hr. cbn [fst snd pulse_count].
  destruct (pulses_fields arrivals s) as [Hc [Hs [Hi _]]].
  destruct (pulses_fields arrivals (snd (get_reading t s))) as [Hc' _].
  split; [reflexivity|]. split; [reflexivity|].
  split; [|split; [|split]].
  - cbn [counted]. rewrite Hdue. lia.
  - cbn [counted]. rewrite Hs, Hi, Hdue, Hc. fold n. lia.
  - rewrite Hc', get_reading_pulse_count, Hdue. fold n. lia.
  - intros es Hes. rewrite whole_calls_count_every_pulse, Hes. reflexivity.
Qed.

(** A read made between the increment of the counter and the append to the
    history sees half of the pulse: one more pulse in [pulse_count] than in
    [pulse_buffer]. *)
Lemma read_during_pulse_callback (pulse_time read_time : Q)
  (s : RadiationSensor) :
  let seen := _pulse_callback_count s in
  pulse_callback_interrupted pulse_time read_time s =
    (fst (get_reading read_time seen),
     _pulse_callback_store pulse_time (snd (get_reading read_time seen))) /\
  pulse_count seen = (pulse_count s + 1)%Z /\
  pulse_buffer seen = pulse_buffer s.
Proof.
  intros seen. unfold pulse_callback_interrupted. fold seen.
  destruct (get_reading read_time seen). repeat split.
Qed.

End PulseContext.

(** C4 on a sensor built at 0 s that has counted pulses at 1, 2 and 3 s: a
    pulse that arrives at 6 s during the read made at 6 s is counted
    neither by that estimate (16.5, from 3 pulses) nor left in the
    counter. *)
Lemma pulses_during_get_reading_witness :
  let s := Pulses.pulses [1; 2; 3]%Q (Sensor.init 0) in
  Qle_bool (Sensor.reading_interval s) (6 - Sensor.start_time s) = true /\
  (fst (Interleaving.get_reading_interrupted 6 [6]%Q s) == 33 # 2)%Q /\
  Sensor.pulse_count (snd (Interleaving.get_reading_interrupted 6 [6]%Q s))
    = 0%Z /\
  (Interleaving.counted [Sensor.Read 6] s
   + Sensor.pulse_count
       (snd (Interleaving.get_reading_interrupted 6 [6]%Q s)) = 3)%Z.
Proof.
  intros s.
  destruct (pulses_during_get_reading_are_lost 6 [6]%Q s eq_refl)
    as [Hfst [Hsnd [Hlost _]]].
  split; [reflexivity|]. split; [rewrite Hfst; reflexivity|].
  split; [rewrite Hsnd; reflexivity|]. exact Hlost.
Defined.

(** The same sensor, read at 6 s and at 12 s, with one pulse at 6 s.  As
    whole calls in either order the two estimates are 22 and 2 (pulse
    first) or 16.5 and 7 (read first).  With the pulse between the
    assignment of [last_reading] and the reset they are 16.5 and 2; with
    the first read between the increment and the append of the callback
    it returns 21.5.  Neither is a result of the whole calls in some
    order. *)
Lemma interrupted_calls_match_no_order :
  let s := Pulses.pulses [1; 2; 3]%Q (Sensor.init 0) in
  let pulse_first :=
    Sensor.readings_of
      [Sensor.Pulse 6; Sensor.Read 6; Sensor.Read 12]%Q s in
  let read_first :=
    Sensor.readings_of
      [Sensor.Read 6; Sensor.Pulse 6; Sensor.Read 12]%Q s in
  let read_interrupted :=
    let '(first, s1) := Interleaving.get_reading_interrupted 6 [6]%Q s in
    [first; fst (Sensor.get_reading 12 s1)] in
  let pulse_interrupted :=
    fst (Interleaving.pulse_callback_interrupted 6 6 s) in
  Forall2 Qeq pulse_first [22; 2]%Q /\
  Forall2 Qeq read_first [33 # 2; 7]%Q /\
  Forall2 Qeq read_interrupted [33 # 2; 2]%Q /\
  (pulse_interrupted == 43 # 2)%Q.
Proof.
  cbv zeta. repeat split; repeat constructor; reflexivity.
Qed.

Section ReadingsAndDoses.
Import Sensor.
Local Open Scope Q_scope.

Lemma convert_positive (cpm : Q) :
  0 < cpm -> convert_to_microsieverts cpm == cpm * (54 # 1625).
Proof.
  intros H. unfold convert_to_microsieverts.
  apply Qle_bool_false_iff in H. rewrite H. field.
Qed.

Lemma convert_not_positive (cpm : Q) :
  cpm <= 0 -> convert_to_microsieverts cpm = 0.
Proof.
  intros H. unfold convert_to_microsieverts.
  apply Qle_bool_iff in H. rewrite H. reflexivity.
Qed.

(** X3.  The dose rate follows the count rate: a larger CPM never converts
    to a smaller dose rate, and the dose rate is positive exactly when the
    CPM is. *)
Theorem dose_rate_is_monotone (cpm1 cpm2 : Q) :
  cpm1 <= cpm2 ->
  convert_to_microsieverts cpm1 <= convert_to_microsieverts cpm2 /\
  (0 < convert_to_microsieverts cpm2 <-> 0 < cpm2).
Proof.
  intros Hle. split.
  - destruct (Qlt_le_dec 0 cpm1) as [H1 | H1].
    + assert (H2 : 0 < cpm2) by lra.
      rewrite (convert_positive _ H1), (convert_positive _ H2). lra.
    + rewrite (convert_not_positive _ H1).
      destruct (Qlt_le_dec 0 cpm2) as [H2 | H2].
      * rewrite (convert_positive _ H2). lra.
      * rewrite (convert_not_positive _ H2). lra.
  - destruct (Qlt_le_dec 0 cpm2) as [H2 | H2].
    + rewrite (convert_positive _ H2). split; intros; lra.
    + rewrite (convert_not_positive _ H2). split; intros; lra.
Qed.

(** X3 on 40 and 120 CPM. *)
Lemma dose_rate_is_monotone_witness :
  convert_to_microsieverts 40 <= convert_to_microsieverts 120.
Proof.
  exact (proj1 (dose_rate_is_monotone 40 120 ltac:(discriminate))).
Defined.

(** X4.  A read that recomputes the estimate starts a new interval: the
    counter is back to 0, the interval starts at the time of the read, and a
    second read made less than [reading_interval] seconds later returns the
    same value and leaves the sensor as the first read left it. *)
Theorem get_reading_stable_after_recompute
  (s : RadiationSensor) (t1 t2 : Q) :
  reading_interval s <= t1 - start_time s ->
  t2 - t1 < reading_interval s ->
  pulse_count (snd (get_reading t1 s)) = 0%Z /\
  start_time (snd (get_reading t1 s)) = t1 /\
  pulse_buffer (snd (get_reading t1 s)) = pulse_buffer s /\
  get_reading t2 (snd (get_reading t1 s))
    = (fst (get_reading t1 s), snd (get_reading t1 s)).
Proof.
  intros H1 H2.
  assert (E : Qle_bool (reading_interval s) (t1 - start_time s) = true)
    by (apply Qle_bool_iff; exact H1).
  assert (Hst : start_time (snd (get_reading t1 s)) = t1)
    by (unfold get_reading; rewrite E; reflexivity).
  assert (Hri : reading_interval (snd (get_reading t1 s)) = reading_interval s)
    by (unfold get_reading; rewrite E; reflexivity).
  split; [unfold get_reading; rewrite E; reflexivity|].
  split; [exact Hst|].
  split; [unfold get_reading; rewrite E; reflexivity|].
  rewrite get_reading_stale; [|rewrite Hst, Hri; exact H2].
  rewrite get_reading_last. reflexivity.
Qed.

(** X4 on a sensor with two pulses, read at 6 s (11 CPM) and again at
    10 s. *)
Lemma get_reading_stable_after_recompute_witness :
  let s := Pulses.pulses [1; 2] (init 0) in
  fst (get_reading 6 s) == 11 /\
  get_reading 10 (snd (get_reading 6 s))
    = (fst (get_reading 6 s), snd (get_reading 6 s)).
Proof.
  split; [reflexivity|].
  apply (get_reading_stable_after_recompute
           (Pulses.pulses [1; 2] (init 0)) 6 10);
    [discriminate | reflexivity].
Defined.

End ReadingsAndDoses.

(* ================================================================== *)
(** * Further properties of the dead-reckoned pose *)
(* ================================================================== *)

Section TrackerAlgebra.
Import Tracker Invariants.
Local Open Scope R_scope.

(** X5.  [forward] and [backward] with [n] steps move the position by
    exactly [|n * step_size|] centimetres, whatever the heading. *)
Theorem advance_covers_step_distance (p : PositionTracker) (n : Z) :
  sqrt ((x (update_position "forward" n p) - x p) ^ 2
        + (y (update_position "forward" n p) - y p) ^ 2)
    = Rabs (IZR (n * step_size p)) /\
  sqrt ((x (update_position "backward" n p) - x p) ^ 2
        + (y (update_position "backward" n p) - y p) ^ 2)
    = Rabs (IZR (n * step_size p)).
Proof.
  rewrite update_forward, update_backward. cbn [x y].
  set (d := IZR (n * step_size p)). set (a := radians (heading p)).
  assert (E : (d * d = Rsqr d * (Rsqr (sin a) + Rsqr (cos a)))%R)
    by (rewrite sin2_cos2; unfold Rsqr; ring).
  split.
  - replace ((x p + d * cos a - x p) ^ 2 + (y p + d * sin a - y p) ^ 2)
      with (Rsqr d) by (unfold Rsqr in *; lra).
    apply sqrt_Rsqr_abs.
  - replace ((x p - d * cos a - x p) ^ 2 + (y p - d * sin a - y p) ^ 2)
      with (Rsqr d) by (unfold Rsqr in *; lra).
    apply sqrt_Rsqr_abs.
Qed.

(** X6.  Turns add up and undo each other: two left turns are one left turn
    of the summed step count, likewise to the right; a right turn undoes a
    left turn of the same step count up to the normal form of the heading;
    and eight more steps are a full circle. *)
Theorem turns_compose (p : PositionTracker) (a b : Z) :
  update_position "turn left" b (update_position "turn left" a p)
    = update_position "turn left" (a + b) p /\
  update_position "turn right" b (update_position "turn right" a p)
    = update_position "turn right" (a + b) p /\
  update_position "turn right" a (update_position "turn left" a p)
    = mkTracker (x p) (y p) (heading p mod 360) (step_size p) /\
  update_position "turn left" (a + 8 * b) p = update_position "turn left" a p.
Proof.
  repeat (rewrite update_turn_left || rewrite update_turn_right).
  cbn [x y heading step_size].
  repeat split; f_equal.
  - rewrite Zplus_mod_idemp_l. f_equal. lia.
  - rewrite Zminus_mod_idemp_l. f_equal. lia.
  - rewrite Zminus_mod_idemp_l. f_equal. lia.
  - replace (heading p + 45 * (a + 8 * b))%Z
      with (heading p + 45 * a + b * 360)%Z by lia.
    apply Z.mod_add. lia.
Qed.

(** X7.  Advances along one heading add up: two [forward] calls are one of
    the summed step count, and [backward n] is [forward (- n)] (exactly,
    over the reals). *)
Theorem advances_compose (p : PositionTracker) (a b : Z) :
  update_position "forward" b (update_position "forward" a p)
    = update_position "forward" (a + b) p /\
  update_position "backward" a p = update_position "forward" (- a) p.
Proof.
  rewrite !update_forward, update_backward. cbn [x y heading step_size].
  rewrite cos_radians_mod, sin_radians_mod.
  split; f_equal.
  - rewrite Z.mul_add_distr_r, plus_IZR. ring.
  - rewrite Z.mul_add_distr_r, plus_IZR. ring.
  - apply Z.mod_mod. lia.
  - rewrite Z.mul_opp_l, opp_IZR. ring.
  - rewrite Z.mul_opp_l, opp_IZR. ring.
Qed.

(** Every call turns the heading by a whole number of 45 degree steps. *)
Lemma update_position_heading_steps (action : string) (steps : Z)
  (p : PositionTracker) :
  step_size (update_position action steps p) = step_size p /\
  exists m : Z,
    heading (update_position action steps p)
      = ((heading p + 45 * m) mod 360)%Z.
Proof.
  unfold update_position.
  destruct (contains "forward" action);
    [split; [reflexivity|]; exists 0%Z; cbn [heading]; f_equal; lia|].
  destruct (contains "backward" action);
    [split; [reflexivity|]; exists 0%Z; cbn [heading]; f_equal; lia|].
  destruct (contains "turn left" action);
    [split; [reflexivity|]; exists steps; reflexivity|].
  destruct (contains "turn right" action);
    split; try reflexivity.
  - exists (- steps)%Z. cbn [heading]. f_equal. lia.
  - exists 0%Z. cbn [heading]. f_equal. lia.
Qed.

Lemma update_position_compass (action : string) (steps : Z)
  (p : PositionTracker) :
  (exists k : Z, heading p = (45 * k)%Z) ->
  compass (heading (update_position action steps p)).
Proof.
  intros [k Hk].
  destruct (update_position_heading_steps action steps p) as [_ [m Hm]].
  exists ((k + m) mod 8)%Z. split.
  - apply Z.mod_pos_bound. lia.
  - rewrite Hm, Hk.
    replace (45 * k + 45 * m)%Z with (45 * (k + m))%Z by lia.
    change 360%Z with (45 * 8)%Z. apply Z.mul_mod_distr_l; lia.
Qed.

End TrackerAlgebra.

(* ================================================================== *)
(** * What every operation of the bot preserves *)
(* ================================================================== *)

Section Preservation.
Import Tracker Bot Control.

Variable gpio : bool.
Variable sense : Z -> nat -> list Q.

(** A property of the bot that the four primitive updates keep. *)
Variable P : RadiationBot -> Prop.
Hypothesis P_collect :
  forall d b, P b -> P (snd (collect_radiation_sample gpio sense d b)).
Hypothesis P_move : forall a n b, P b -> P (move_and_track a n b).
Hypothesis P_flag : forall v b, P b -> P (set_exploring v b).
Hypothesis P_action : forall a n sp b, P b -> P (do_action a n sp b).

Lemma preserved_run_script (s : list op) (b : RadiationBot) :
  P b -> P (run_script gpio sense s b).
Proof.
  revert b. induction s as [|o s IH]; intros b Hb.
  - exact Hb.
  - change (run_script gpio sense (o :: s) b)
      with (run_script gpio sense s (run_op gpio sense b o)).
    apply IH. destruct o; [apply P_collect | apply P_move]; exact Hb.
Qed.

Lemma preserved_explore_grid (n : nat) (D : Z) (b : RadiationBot) :
  P b -> P (explore_grid gpio sense n D b).
Proof.
  intros Hb. rewrite explore_grid_runs_script.
  apply P_flag, preserved_run_script, P_flag, Hb.
Qed.

Lemma preserved_probe_directions (current : Q) (b : RadiationBot) :
  P b -> P (bot (probe_directions gpio sense current b)).
Proof.
  intros Hb. rewrite probe_directions_runs_script.
  apply preserved_run_script, Hb.
Qed.

Lemma preserved_seek (fuel : nat) :
  forall (current : Q) (b : RadiationBot),
    P b -> P (snd (seek gpio sense fuel current b)).
Proof.
  induction fuel as [|fuel IH]; intros current b Hb.
  - exact Hb.
  - cbn [seek].
    pose proof (preserved_probe_directions current b Hb) as Hp.
    destruct (best_direction (probe_directions gpio sense current b)).
    + apply IH, P_move, Hp.
    + exact Hp.
Qed.

Lemma find_radiation_source_unfold (max_steps : Z) (b : RadiationBot) :
  find_radiation_source gpio sense max_steps b =
  seek gpio sense (Z.to_nat max_steps)
    (fst (collect_radiation_sample gpio sense 2 b))
    (snd (collect_radiation_sample gpio sense 2 b)).
Proof. reflexivity. Qed.

Lemma preserved_find_radiation_source (max_steps : Z) (b : RadiationBot) :
  P b -> P (snd (find_radiation_source gpio sense max_steps b)).
Proof.
  intros Hb. rewrite find_radiation_source_unfold.
  apply preserved_seek, P_collect, Hb.
Qed.

Lemma demo_mode_unfold (b : RadiationBot) :
  demo_mode gpio sense b =
  (generate_heatmap "radiation_heatmap.png"
     (snd (find_radiation_source gpio sense 15
             (explore_grid gpio sense 4 2 b))),
   do_action "sit" 1 80
     (snd (find_radiation_source gpio sense 15
             (explore_grid gpio sense 4 2 b)))).
Proof.
  unfold demo_mode.
  destruct (find_radiation_source gpio sense 15
              (explore_grid gpio sense 4 2 b)); reflexivity.
Qed.

Lemma preserved_demo_mode (b : RadiationBot) :
  P b -> P (snd (demo_mode gpio sense b)).
Proof.
  intros Hb. rewrite demo_mode_unfold. cbn [snd].
  apply P_action, preserved_find_radiation_source, preserved_explore_grid, Hb.
Qed.

Lemma preserved_handle_key (key : string) (b : RadiationBot) :
  P b -> P (handle_key gpio sense key b).
Proof.
  intros Hb. unfold handle_key.
  repeat match goal with
  | |- P (if ?c then _ else _) => destruct c
  end;
  auto using preserved_explore_grid, preserved_find_radiation_source,
    preserved_demo_mode.
Qed.

Lemma preserved_key_loop (keys : list string) (b : RadiationBot) :
  P b -> P (key_loop gpio sense keys b).
Proof.
  revert b. induction keys as [|key keys IH]; intros b Hb.
  - exact Hb.
  - cbn [key_loop]. destruct (key =? esc)%string; [exact Hb|].
    apply IH, preserved_handle_key, Hb.
Qed.

Lemma preserved_main (keys : list string) :
  P Bot.init -> P (main gpio sense keys).
Proof.
  intros Hi. apply P_action, preserved_key_loop, Hi.
Qed.

End Preservation.

(* ================================================================== *)
(** * Invariants of a mission *)
(* ================================================================== *)

Section Mission.
Import Tracker Bot Control Invariants.

Variable gpio : bool.
Variable sense : Z -> nat -> list Q.

Local Abbreviation collect := (collect_radiation_sample gpio sense).

(** The pose. *)
Lemma init_pose_ok : pose_ok Bot.init.
Proof. split; [reflexivity|]. exists 0%Z. split; [lia | reflexivity]. Qed.

Lemma move_pose_ok (a : string) (n : Z) (b : RadiationBot) :
  pose_ok b -> pose_ok (move_and_track a n b).
Proof.
  intros [Hs [k [_ Hk]]]. split.
  - cbn [move_and_track tracker].
    rewrite (proj1 (update_position_heading_steps a n (tracker b))).
    exact Hs.
  - cbn [move_and_track tracker]. apply update_position_compass.
    exists k. exact Hk.
Qed.

(** The maximum record. *)
Lemma init_max_ok : max_ok Bot.init.
Proof.
  split; [constructor|]. split; [discriminate|]. left. split; reflexivity.
Qed.

Lemma collect_max_ok (d : Z) (b : RadiationBot) :
  max_ok b -> max_ok (snd (collect d b)).
Proof.
  intros [Hall [H0 Hmax]].
  destruct (collect_data gpio sense d b) as [dp [Hd [Hpos [_ [Hcpm _]]]]].
  destruct (collect_max gpio sense d b) as [Hm Hp].
  unfold max_ok. rewrite Hd.
  destruct (Qltb (max_radiation b) (fst (collect d b))) eqn:E.
  - apply Qltb_true_iff in E. rewrite Hm, Hp. split; [|split].
    + apply Forall_app. split.
      * eapply Forall_impl; [|exact Hall]. intros dp' Hle. cbv beta in *.
        lra.
      * constructor; [|constructor]. rewrite Hcpm. apply Qle_refl.
    + lra.
    + right. exists dp. split; [apply in_or_app; right; left; reflexivity|].
      split; [exact Hcpm | exact Hpos].
  - apply Qltb_false_iff in E. rewrite Hm, Hp. split; [|split].
    + apply Forall_app. split; [exact Hall|].
      constructor; [|constructor]. rewrite Hcpm. exact E.
    + exact H0.
    + destruct Hmax as [Hz | [dp' [Hin Hdp']]]; [left; exact Hz|].
      right. exists dp'. split; [apply in_or_app; left; exact Hin|].
      exact Hdp'.
Qed.

(** Growth. *)
Lemma extends_refl (b : RadiationBot) : extends b b.
Proof.
  split; [exists []; symmetry; apply app_nil_r|].
  split; [exists []; symmetry; apply app_nil_r|]. apply Qle_refl.
Qed.

Lemma collect_extends (b0 : RadiationBot) (d : Z) (b : RadiationBot) :
  extends b0 b -> extends b0 (snd (collect d b)).
Proof.
  intros [[new Hn] [Ha Hm]].
  destruct (collect_data gpio sense d b) as [dp [Hd _]].
  destruct (collect_max gpio sense d b) as [Hmax _].
  split; [|split].
  - exists (new ++ [dp]). rewrite Hd, Hn, app_assoc. reflexivity.
  - exact Ha.
  - rewrite Hmax.
    destruct (Qltb (max_radiation b) (fst (collect d b))) eqn:E;
      [|exact Hm].
    apply Qltb_true_iff in E. lra.
Qed.

Lemma log_extends (b0 : RadiationBot) (entry : string * Z * Z)
  (b b' : RadiationBot) :
  radiation_data b' = radiation_data b ->
  max_radiation b' = max_radiation b ->
  actions b' = actions b ++ [entry] ->
  extends b0 b -> extends b0 b'.
Proof.
  intros Hd Hm Ha [Hn [[more Hmore] Hle]]. unfold extends.
  rewrite Hd, Hm, Ha. split; [exact Hn|]. split; [|exact Hle].
  exists (more ++ [entry]). rewrite Hmore, app_assoc. reflexivity.
Qed.

(** The invariants over a session of the controller. *)
Lemma session_max_ok (keys : list string) :
  max_ok (main gpio sense keys).
Proof.
  apply (preserved_main gpio sense max_ok); auto using init_max_ok.
  intros d b. apply collect_max_ok.
Qed.

End Mission.

Section MissionProperties.
Import Tracker Bot Control Invariants.

Variable gpio : bool.
Variable sense : Z -> nat -> list Q.

(** The four primitive updates only add data and logged actions. *)
Lemma extends_closed (b0 : RadiationBot) :
  (forall d b, extends b0 b ->
     extends b0 (snd (collect_radiation_sample gpio sense d b))) /\
  (forall a n b, extends b0 b -> extends b0 (move_and_track a n b)) /\
  (forall v b, extends b0 b -> extends b0 (set_exploring v b)) /\
  (forall a n sp b, extends b0 b -> extends b0 (do_action a n sp b)).
Proof.
  split; [intros d b; apply collect_extends|].
  split; [intros a n b; apply (log_extends b0 (a, n, 60%Z)); reflexivity|].
  split; [intros v b H; exact H|].
  intros a n sp b. apply (log_extends b0 (a, n, sp)); reflexivity.
Qed.

(** X8.  Stored data is never altered: the grid scan, the source search,
    the demo and every key of the controller only append to
    [radiation_data] and to the log of actuator calls, and never lower
    [max_radiation]. *)
Theorem operations_only_append (b : RadiationBot) :
  (forall (n : nat) (D : Z), extends b (explore_grid gpio sense n D b)) /\
  (forall max_steps : Z,
     extends b (snd (find_radiation_source gpio sense max_steps b))) /\
  extends b (snd (demo_mode gpio sense b)) /\
  (forall key : string, extends b (handle_key gpio sense key b)).
Proof.
  destruct (extends_closed b) as [Hc [Hm [Hf Ha]]].
  pose proof (extends_refl b) as Hr.
  split; [intros n D; apply preserved_explore_grid; assumption|].
  split; [intros m; apply preserved_find_radiation_source; assumption|].
  split; [apply preserved_demo_mode; assumption|].
  intros key. apply preserved_handle_key; assumption.
Qed.

(** X9.  Whatever keys are pressed, the controller leaves the tracker with
    the step size 10 and one of the eight headings 0, 45, ..., 315. *)
Theorem session_heading_is_compass (keys : list string) :
  step_size (tracker (main gpio sense keys)) = 10%Z /\
  exists k : Z,
    (0 <= k < 8)%Z /\ heading (tracker (main gpio sense keys)) = (45 * k)%Z.
Proof.
  change (pose_ok (main gpio sense keys)).
  apply (preserved_main gpio sense pose_ok).
  - intros d b H. exact H.
  - intros a n b. apply move_pose_ok.
  - intros v b H. exact H.
  - intros a n sp b H. exact H.
  - apply init_pose_ok.
Qed.

(** X10.  Whatever keys are pressed, the maximum record agrees with the
    data: no stored CPM is above [max_radiation], which is not negative, and
    either [max_radiation] is still the initial 0 at the initial position,
    or it is the CPM of a stored data point that was taken at
    [max_radiation_pos]. *)
Theorem session_max_record_agrees (keys : list string) :
  let b := main gpio sense keys in
  Forall (fun dp => (radiation_cpm dp <= max_radiation b)%Q)
    (radiation_data b) /\
  (0 <= max_radiation b)%Q /\
  ((max_radiation b = 0%Q /\ max_radiation_pos b = (0%R, 0%R)) \/
   exists dp : DataPoint,
     In dp (radiation_data b) /\
     radiation_cpm dp = max_radiation b /\
     position dp = max_radiation_pos b).
Proof.
  intros b. change (max_ok b). unfold b.
  apply (preserved_main gpio sense max_ok).
  - intros d b'. apply collect_max_ok.
  - intros a n b' H. exact H.
  - intros v b' H. exact H.
  - intros a n sp b' H. exact H.
  - apply init_max_ok.
Qed.

(** The plot, when there is one. *)
Lemma generate_heatmap_some (file : string) (b : RadiationBot) (plot : Plot) :
  generate_heatmap file b = Some plot ->
  plot = {| x_coords := map fst (map position (radiation_data b));
            y_coords := map snd (map position (radiation_data b));
            radiations := map radiation_cpm (radiation_data b);
            marker := max_radiation_pos b;
            plot_file := file |}.
Proof.
  unfold generate_heatmap.
  destruct (radiation_data b); [discriminate|].
  intros H. injection H as <-. reflexivity.
Qed.

(** The plot of a bot whose maximum record agrees with its data. *)
Lemma plot_of_max_ok (file : string) (b : RadiationBot) (plot : Plot) :
  max_ok b ->
  generate_heatmap file b = Some plot ->
  x_coords plot = map (fun dp => fst (position dp)) (radiation_data b) /\
  y_coords plot = map (fun dp => snd (position dp)) (radiation_data b) /\
  radiations plot = map radiation_cpm (radiation_data b) /\
  plot_file plot = file /\
  ((marker plot = (0%R, 0%R) /\
    Forall (fun c => (c <= 0)%Q) (radiations plot)) \/
   exists (i : nat) (hottest : Q),
     nth_error (radiations plot) i = Some hottest /\
     Forall (fun c => (c <= hottest)%Q) (radiations plot) /\
     nth_error (x_coords plot) i = Some (fst (marker plot)) /\
     nth_error (y_coords plot) i = Some (snd (marker plot))).
Proof.
  intros [Hall [_ Hmax]] Hg. apply generate_heatmap_some in Hg. subst plot.
  cbn [x_coords y_coords radiations marker plot_file].
  rewrite !map_map.
  split; [reflexivity|]. split; [reflexivity|].
  split; [reflexivity|]. split; [reflexivity|].
  destruct Hmax as [[Hz Hp] | [dp [Hin [Hc Hp]]]].
  - left. split; [exact Hp|]. apply Forall_map. rewrite <- Hz. exact Hall.
  - right. apply In_nth_error in Hin. destruct Hin as [i Hi].
    exists i, (max_radiation b). rewrite !nth_error_map, Hi.
    cbn [option_map]. rewrite Hc, Hp.
    split; [reflexivity|]. split; [|split; reflexivity].
    apply Forall_map. exact Hall.
Qed.

(** X11.  [generate_heatmap] after a session of the controller: it returns
    nothing exactly when no sample was taken; otherwise it plots the data
    points in order, each at its position and with its CPM as colour, into
    the file it is given, and the marker of the highest radiation sits on a
    plotted point whose colour no other colour exceeds, or at the origin
    when no colour is above 0. *)
Theorem heatmap_of_a_session (keys : list string) (file : string) :
  let b := main gpio sense keys in
  (generate_heatmap file b = None <-> radiation_data b = []) /\
  forall plot : Plot,
    generate_heatmap file b = Some plot ->
    x_coords plot = map (fun dp => fst (position dp)) (radiation_data b) /\
    y_coords plot = map (fun dp => snd (position dp)) (radiation_data b) /\
    radiations plot = map radiation_cpm (radiation_data b) /\
    plot_file plot = file /\
    ((marker plot = (0%R, 0%R) /\
      Forall (fun c => (c <= 0)%Q) (radiations plot)) \/
     exists (i : nat) (hottest : Q),
       nth_error (radiations plot) i = Some hottest /\
       Forall (fun c => (c <= hottest)%Q) (radiations plot) /\
       nth_error (x_coords plot) i = Some (fst (marker plot)) /\
       nth_error (y_coords plot) i = Some (snd (marker plot))).
Proof.
  intros b. split.
  - unfold generate_heatmap.
    destruct (radiation_data b); split; intros H;
      try reflexivity; discriminate.
  - intros plot. apply plot_of_max_ok. apply session_max_ok.
Qed.

End MissionProperties.

(* ================================================================== *)
(** * The source search, the demo and the session as a whole *)
(* ================================================================== *)

Section SourceSearch.
Import Tracker Bot Control Invariants.

Variable gpio : bool.
Variable sense : Z -> nat -> list Q.

Local Abbreviation collect := (collect_radiation_sample gpio sense).
Local Abbreviation probing := (probe_directions gpio sense).

(** One dwell never leaves the maximum below its own average. *)
Lemma collect_below_max (d : Z) (b : RadiationBot) :
  (fst (collect d b) <= max_radiation (snd (collect d b)))%Q /\
  (max_radiation b <= max_radiation (snd (collect d b)))%Q.
Proof.
  destruct (collect_max gpio sense d b) as [Hm _]. rewrite Hm.
  destruct (Qltb (max_radiation b) (fst (collect d b))) eqn:E.
  - apply Qltb_true_iff in E. split; lra.
  - apply Qltb_false_iff in E. split; lra.
Qed.

(** What one probing phase leaves: one data point more, whose CPM is the
    probe, six logged movements, a maximum that is at least the probe and
    the old maximum, and the decision on the probe. *)
Lemma probing_summary (current : Q) (b : RadiationBot) :
  exists dp : DataPoint,
    radiation_data (bot (probing current b)) = radiation_data b ++ [dp] /\
    List.length (actions (bot (probing current b)))
      = (List.length (actions b) + 6)%nat /\
    (radiation_cpm dp <= max_radiation (bot (probing current b)))%Q /\
    (max_radiation b <= max_radiation (bot (probing current b)))%Q /\
    best_direction (probing current b)
      = (if Qltb current (radiation_cpm dp)
         then Some "forward"%string else None) /\
    best_radiation (probing current b)
      = (if Qltb current (radiation_cpm dp)
         then radiation_cpm dp else current).
Proof.
  set (b1 := move_and_track "forward" 1 b).
  destruct (collect_data gpio sense 1 b1) as [dp [Hd [_ [_ [Hc _]]]]].
  destruct (collect_below_max 1 b1) as [Hprobe Hold].
  destruct (probing_phase_decision gpio sense current b) as [Hdir Hbest].
  fold b1 in Hdir, Hbest. rewrite <- Hc in Hdir, Hbest, Hprobe.
  exists dp. split; [exact Hd|]. split.
  - rewrite probe_directions_runs_script, run_script_actions, length_app.
    reflexivity.
  - split; [exact Hprobe|]. split; [exact Hold|].
    split; [exact Hdir | exact Hbest].
Qed.

(** The [while] loop by induction on the budget: the passes made, the
    advances among them, what was added, and the level returned. *)
Lemma seek_summary (fuel : nat) :
  forall (current : Q) (b : RadiationBot),
  exists (passes advances : nat) (new : list DataPoint),
    (passes <= fuel)%nat /\
    ((advances = passes /\ passes = fuel) \/ S advances = passes) /\
    ((0 < fuel)%nat -> (0 < passes)%nat) /\
    radiation_data (snd (seek gpio sense fuel current b))
      = radiation_data b ++ new /\
    List.length new = passes /\
    List.length (actions (snd (seek gpio sense fuel current b)))
      = (List.length (actions b) + 6 * passes + advances)%nat /\
    (current <= fst (seek gpio sense fuel current b))%Q /\
    Forall (fun dp => (radiation_cpm dp
                       <= fst (seek gpio sense fuel current b))%Q) new /\
    (fst (seek gpio sense fuel current b) = current \/
     exists dp, In dp new /\
       radiation_cpm dp = fst (seek gpio sense fuel current b)) /\
    ((0 < advances)%nat <->
     (current < fst (seek gpio sense fuel current b))%Q) /\
    ((current <= max_radiation b)%Q ->
     (fst (seek gpio sense fuel current b)
      <= max_radiation (snd (seek gpio sense fuel current b)))%Q).
Proof.
  induction fuel as [|fuel IH]; intros current b.
  - exists 0%nat, 0%nat, []. cbn [seek fst snd].
    rewrite app_nil_r. repeat split; auto; try lia; try apply Qle_refl.
    intros H. exfalso. revert H. apply Qlt_irrefl.
  - destruct (probing_summary current b)
      as [dp [Hd [Ha [Hprobe [Hold [Hdir Hbest]]]]]].
    cbn [seek]. rewrite Hdir, Hbest.
    destruct (Qltb current (radiation_cpm dp)) eqn:E.
    + apply Qltb_true_iff in E.
      set (b2 := move_and_track "forward" 2 (bot (probing current b))).
      destruct (IH (radiation_cpm dp) b2)
        as [p [a [new [Hp [Hpa [_ [Hn [Hl [Hact [Hle [Hall [Hin
             [Hadv Hmax]]]]]]]]]]]]].
      set (r := seek gpio sense fuel (radiation_cpm dp) b2) in *.
      exists (S p), (S a), (dp :: new).
      split; [lia|]. split; [destruct Hpa as [[-> ->] | <-]; auto|].
      split; [lia|]. split.
      { rewrite Hn. unfold b2. cbn [move_and_track radiation_data].
        rewrite Hd, <- app_assoc. reflexivity. }
      split; [cbn [List.length]; lia|]. split.
      { rewrite Hact. unfold b2. cbn [move_and_track actions].
        rewrite length_app, Ha. cbn [List.length]. lia. }
      split; [lra|]. split; [constructor; assumption|]. split.
      { right. destruct Hin as [Heq | [dp' [Hin' Hc']]].
        - exists dp. split; [left; reflexivity | symmetry; exact Heq].
        - exists dp'. split; [right; exact Hin' | exact Hc']. }
      split; [split; [intros _; lra | intros _; lia]|].
      intros _. apply Hmax. unfold b2. cbn [move_and_track max_radiation].
      exact Hprobe.
    + apply Qltb_false_iff in E. cbn [fst snd].
      exists 1%nat, 0%nat, [dp].
      split; [lia|]. split; [right; reflexivity|]. split; [lia|].
      split; [exact Hd|]. split; [reflexivity|]. split; [rewrite Ha; lia|].
      split; [apply Qle_refl|]. split; [constructor; [exact E|constructor]|].
      split; [left; reflexivity|]. split.
      * split; [lia|]. intros H. exfalso. revert H. apply Qlt_irrefl.
      * intros Hc. lra.
Qed.

(** [find_radiation_source]: the baseline dwell, then the loop. *)
Lemma find_summary (max_steps : Z) (b : RadiationBot) :
  exists (passes advances : nat) (new : list DataPoint),
    (passes <= Z.to_nat max_steps)%nat /\
    ((advances = passes /\ passes = Z.to_nat max_steps)
     \/ S advances = passes) /\
    ((0 < max_steps)%Z -> (0 < passes)%nat) /\
    radiation_data (snd (find_radiation_source gpio sense max_steps b))
      = radiation_data b ++ new /\
    List.length new = S passes /\
    List.length
      (actions (snd (find_radiation_source gpio sense max_steps b)))
      = (List.length (actions b) + 6 * passes + advances)%nat /\
    Forall (fun dp =>
              (radiation_cpm dp
               <= fst (find_radiation_source gpio sense max_steps b))%Q)
      new /\
    (exists dp, In dp new /\
       radiation_cpm dp
         = fst (find_radiation_source gpio sense max_steps b)) /\
    (fst (find_radiation_source gpio sense max_steps b)
     <= max_radiation
          (snd (find_radiation_source gpio sense max_steps b)))%Q.
Proof.
  rewrite find_radiation_source_unfold.
  destruct (collect_data gpio sense 2 b) as [dp [Hd [_ [_ [Hc _]]]]].
  destruct (collect_below_max 2 b) as [Hbase _].
  destruct (seek_summary (Z.to_nat max_steps) (fst (collect 2 b))
              (snd (collect 2 b)))
    as [p [a [new [Hp [Hpa [Hpos [Hn [Hl [Hact [Hle [Hall [Hin
         [_ Hmax]]]]]]]]]]]]].
  set (r := seek gpio sense (Z.to_nat max_steps) (fst (collect 2 b))
              (snd (collect 2 b))) in *.
  exists p, a, (dp :: new).
  split; [exact Hp|]. split; [exact Hpa|]. split; [intros H; apply Hpos; lia|].
  split; [rewrite Hn, Hd, <- app_assoc; reflexivity|].
  split; [cbn [List.length]; lia|]. split; [exact Hact|].
  split; [constructor; [rewrite Hc; exact Hle | exact Hall]|].
  split; [|exact (Hmax Hbase)].
  destruct Hin as [Heq | [dp' [Hin' Hc']]].
  - exists dp. split; [left; reflexivity|]. rewrite Hc. symmetry. exact Heq.
  - exists dp'. split; [right; exact Hin' | exact Hc'].
Qed.

End SourceSearch.

Section GridCounts.
Import Tracker Bot.

Lemma moves_of_app (s1 s2 : list op) :
  moves_of (s1 ++ s2) = moves_of s1 ++ moves_of s2.
Proof.
  induction s1 as [|o s1 IH]; [reflexivity|].
  destruct o; cbn [app moves_of]; rewrite IH; reflexivity.
Qed.

Lemma moves_of_flat_map {A : Type} (f : A -> list op) (l : list A) :
  List.length (moves_of (flat_map f l))
    = list_sum (map (fun a => List.length (moves_of (f a))) l).
Proof.
  induction l as [|a l IH]; [reflexivity|].
  cbn [flat_map map].
  rewrite moves_of_app, length_app, IH. reflexivity.
Qed.

Lemma list_sum_constant {A : Type} (g : A -> nat) (k : nat) (l : list A) :
  (forall a, In a l -> g a = k) ->
  list_sum (map g l) = (k * List.length l)%nat.
Proof.
  induction l as [|a l IH]; intros H.
  - cbn. lia.
  - cbn [map List.length].
    change (list_sum (g a :: map g l)) with (g a + list_sum (map g l))%nat.
    rewrite (H a (or_introl eq_refl)), IH; [lia|].
    intros a' Hin. apply H. right. exact Hin.
Qed.

(** The movements of one cell: one advance inside a row, the three of the
    row-end maneuver at the end of a row that is not the last, none at the
    last cell. *)
Lemma cell_moves (m : nat) (D : Z) (row col : nat) :
  List.length (moves_of (cell_script (S m) D row col)) =
  if (col <? m)%nat then 1%nat
  else if (row <? m)%nat then 3%nat else 0%nat.
Proof.
  unfold cell_script.
  replace (Z.of_nat col <? Z.of_nat (S m) - 1)%Z with (col <? m)%nat.
  2:{ destruct (Nat.ltb_spec col m), (Z.ltb_spec (Z.of_nat col)
        (Z.of_nat (S m) - 1)); try reflexivity; lia. }
  replace (Z.of_nat row <? Z.of_nat (S m) - 1)%Z with (row <? m)%nat.
  2:{ destruct (Nat.ltb_spec row m), (Z.ltb_spec (Z.of_nat row)
        (Z.of_nat (S m) - 1)); try reflexivity; lia. }
  destruct (col <? m)%nat; [reflexivity|].
  destruct (row <? m)%nat; [|reflexivity].
  destruct (Z.of_nat row mod 2 =? 0)%Z; reflexivity.
Qed.

Lemma row_moves (m : nat) (D : Z) (row : nat) :
  List.length
    (moves_of (flat_map (cell_script (S m) D row) (seq 0 (S m))))
  = (m + if (row <? m)%nat then 3 else 0)%nat.
Proof.
  rewrite moves_of_flat_map, seq_S, map_app, list_sum_app.
  rewrite (list_sum_constant _ 1%nat).
  - cbn [map]. rewrite cell_moves, Nat.ltb_irrefl, length_seq.
    unfold list_sum. cbn [fold_right]. lia.
  - intros col Hin. apply in_seq in Hin. rewrite cell_moves.
    destruct (Nat.ltb_spec col m); [reflexivity | lia].
Qed.

Lemma grid_moves (n : nat) (D : Z) :
  List.length (moves_of (grid_script n D)) = ((n - 1) * (n + 3))%nat.
Proof.
  destruct n as [|m]; [reflexivity|].
  unfold grid_script.
  rewrite (moves_of_flat_map
             (fun row => flat_map (cell_script (S m) D row) (seq 0 (S m)))).
  rewrite seq_S, map_app, list_sum_app.
  rewrite (list_sum_constant _ (m + 3)%nat).
  - cbn [map]. cbv beta. rewrite <- seq_S.
    rewrite row_moves, Nat.ltb_irrefl, length_seq.
    unfold list_sum. cbn [fold_right]. nia.
  - intros row Hin. apply in_seq in Hin. rewrite <- seq_S, row_moves.
    destruct (Nat.ltb_spec row m); [reflexivity | lia].
Qed.

Variable gpio : bool.
Variable sense : Z -> nat -> list Q.

(** X12.  The scan of an [n] by [n] grid takes exactly [n * n] samples and
    makes exactly [(n - 1) * (n + 3)] actuator calls, from any bot and with
    any readings; a stop requested before the call is overridden, and
    [is_exploring] is cleared at the end. *)
Theorem explore_grid_counts (n : nat) (D : Z) (b : RadiationBot) :
  List.length (radiation_data (explore_grid gpio sense n D b))
    = (List.length (radiation_data b) + n * n)%nat /\
  List.length (actions (explore_grid gpio sense n D b))
    = (List.length (actions b) + (n - 1) * (n + 3))%nat /\
  is_exploring (explore_grid gpio sense n D b) = false /\
  explore_grid gpio sense n D (set_exploring false b)
    = explore_grid gpio sense n D b.
Proof.
  split; [apply explore_grid_samples|]. split; [|split; reflexivity].
  rewrite explore_grid_actions, length_app, grid_moves. reflexivity.
Qed.

End GridCounts.

Section SearchDemoSession.
Import Tracker Bot Control Invariants.

Variable gpio : bool.
Variable sense : Z -> nat -> list Q.

(** X13.  The source search stays within its budget: it makes at most
    [max_steps] passes (at least one when [max_steps] is positive), takes
    one sample for the baseline and one per pass, and makes six actuator
    calls per pass plus one per advance; every pass but possibly the last
    advances, and when the last pass advanced too the budget is used up. *)
Theorem source_search_stays_in_budget (max_steps : Z) (b : RadiationBot) :
  exists passes advances : nat,
    (passes <= Z.to_nat max_steps)%nat /\
    (advances <= passes <= S advances)%nat /\
    (advances = passes -> passes = Z.to_nat max_steps) /\
    ((0 < max_steps)%Z -> (1 <= passes)%nat) /\
    List.length
      (radiation_data (snd (find_radiation_source gpio sense max_steps b)))
      = (List.length (radiation_data b) + 1 + passes)%nat /\
    List.length
      (actions (snd (find_radiation_source gpio sense max_steps b)))
      = (List.length (actions b) + 6 * passes + advances)%nat.
Proof.
  destruct (find_summary gpio sense max_steps b)
    as [p [a [new [Hp [Hpa [Hpos [Hn [Hl [Hact _]]]]]]]]].
  exists p, a. split; [exact Hp|].
  split; [destruct Hpa as [[-> _] | <-]; lia|].
  split; [intros E; destruct Hpa as [[_ H] | H]; [exact H | lia]|].
  split; [intros H; apply Hpos in H; lia|].
  split; [rewrite Hn, length_app, Hl; lia | exact Hact].
Qed.

(** X14.  The level the source search returns is the highest CPM among the
    samples it took: it took at least one, none of them is above the
    returned level, one of them has exactly that CPM, and the level is not
    above the recorded maximum. *)
Theorem source_search_returns_best_sample
  (max_steps : Z) (b : RadiationBot) :
  exists new : list DataPoint,
    radiation_data (snd (find_radiation_source gpio sense max_steps b))
      = radiation_data b ++ new /\
    new <> [] /\
    Forall (fun dp =>
              (radiation_cpm dp
               <= fst (find_radiation_source gpio sense max_steps b))%Q)
      new /\
    (exists dp : DataPoint,
       In dp new /\
       radiation_cpm dp
         = fst (find_radiation_source gpio sense max_steps b)) /\
    (fst (find_radiation_source gpio sense max_steps b)
     <= max_radiation
          (snd (find_radiation_source gpio sense max_steps b)))%Q.
Proof.
  destruct (find_summary gpio sense max_steps b)
    as [p [a [new [_ [_ [_ [Hn [Hl [_ [Hall [Hin Hmax]]]]]]]]]]].
  exists new. split; [exact Hn|]. split.
  - intros ->. discriminate.
  - split; [exact Hall|]. split; [exact Hin | exact Hmax].
Qed.

Lemma generate_heatmap_nonempty (file : string) (b : RadiationBot) :
  radiation_data b <> [] ->
  exists plot : Plot,
    generate_heatmap file b = Some plot /\
    List.length (radiations plot) = List.length (radiation_data b).
Proof.
  intros Hne. unfold generate_heatmap.
  destruct (radiation_data b) as [|dp rest] eqn:E; [contradiction|].
  eexists. split; [reflexivity|]. cbn [radiations]. apply length_map.
Qed.

(** X15.  An uninterrupted demo, from any bot: it takes between 18 and 32
    samples (16 on the 4 by 4 grid, the baseline, and 1 to 15 probes), it
    always produces a heatmap, with one point per data point, and its last
    actuator call is [sit]. *)
Theorem demo_mode_summary (b : RadiationBot) :
  exists (n : nat) (plot : Plot),
    (18 <= n <= 32)%nat /\
    List.length (radiation_data (snd (demo_mode gpio sense b)))
      = (List.length (radiation_data b) + n)%nat /\
    fst (demo_mode gpio sense b) = Some plot /\
    List.length (radiations plot)
      = (List.length (radiation_data b) + n)%nat /\
    exists log : list (string * Z * Z),
      actions (snd (demo_mode gpio sense b))
        = log ++ [("sit"%string, 1%Z, 80%Z)].
Proof.
  rewrite demo_mode_unfold. cbn [fst snd].
  set (b1 := explore_grid gpio sense 4 2 b).
  pose proof (explore_grid_samples gpio sense 4 2 b) as H16. fold b1 in H16.
  destruct (find_summary gpio sense 15 b1)
    as [p [a [new [Hp [_ [Hpos [Hn [Hl _]]]]]]]].
  set (b2 := snd (find_radiation_source gpio sense 15 b1)) in *.
  assert (Hp1 : (1 <= p)%nat) by (apply Hpos; lia).
  assert (Hp15 : (p <= 15)%nat) by exact Hp.
  assert (Hlen : List.length (radiation_data b2)
                 = (List.length (radiation_data b) + (17 + p))%nat).
  { rewrite Hn, length_app, Hl, H16. lia. }
  destruct (generate_heatmap_nonempty "radiation_heatmap.png" b2)
    as [plot [Hplot Hpoints]].
  { intros E. rewrite E in Hlen. cbn in Hlen. lia. }
  exists (17 + p)%nat, plot.
  split; [lia|]. split; [exact Hlen|]. split; [exact Hplot|].
  split; [rewrite Hpoints; exact Hlen|].
  exists (actions b2). reflexivity.
Qed.

Lemma key_loop_stops_at_esc (keys rest : list string) (b : RadiationBot) :
  key_loop gpio sense (keys ++ esc :: rest) b = key_loop gpio sense keys b.
Proof.
  revert b. induction keys as [|key keys IH]; intros b.
  - reflexivity.
  - cbn [app key_loop]. destruct (key =? esc)%string; [reflexivity|].
    apply IH.
Qed.

(** X16.  A session of the controller always ends parked: the log of
    actuator calls starts with the [stand] of the construction and ends with
    the [sit] of the [finally], and the keys that follow an ESC have no
    effect. *)
Theorem session_ends_parked (keys rest : list string) :
  (exists log : list (string * Z * Z),
     actions (main gpio sense keys)
       = ("stand"%string, 1%Z, 80%Z) :: log
         ++ [("sit"%string, 1%Z, 80%Z)]) /\
  main gpio sense (keys ++ esc :: rest) = main gpio sense keys.
Proof.
  split.
  - destruct (proj1 (proj2 (preserved_key_loop gpio sense
        (extends Bot.init)
        (proj1 (extends_closed gpio sense Bot.init))
        (proj1 (proj2 (extends_closed gpio sense Bot.init)))
        (proj1 (proj2 (proj2 (extends_closed gpio sense Bot.init))))
        (proj2 (proj2 (proj2 (extends_closed gpio sense Bot.init))))
        keys Bot.init (extends_refl Bot.init)))) as [more Hmore].
    exists more. unfold main. cbn [do_action actions].
    rewrite Hmore. reflexivity.
  - unfold main. rewrite key_loop_stops_at_esc. reflexivity.
Qed.

End SearchDemoSession.

(* ================================================================== *)
(** * The bins of the heatmap and the mock field *)
(* ================================================================== *)

Section Bins.
Import Tracker Heatmap.
Local Open Scope R_scope.

Lemma floor_spec (r : R) : IZR (floor r) <= r < IZR (floor r) + 1.
Proof.
  unfold floor. rewrite minus_IZR.
  destruct (archimed r) as [Hgt Hle]. lra.
Qed.

Lemma floor_IZR (n : Z) : floor (IZR n) = n.
Proof.
  unfold floor.
  rewrite <- (up_tech (IZR n) n); [lia | lra |].
  rewrite plus_IZR. lra.
Qed.

(** [round] is within a half of its argument, and fixes the integers. *)
Lemma round_near (r : R) : - (1 / 2) <= IZR (round r) - r <= 1 / 2.
Proof.
  unfold round. destruct (floor_spec r) as [Hlo Hhi].
  destruct (Rlt_dec (r - IZR (floor r)) (1 / 2)) as [H1 | H1].
  - lra.
  - destruct (Rlt_dec (1 / 2) (r - IZR (floor r))) as [H2 | H2].
    + rewrite plus_IZR. lra.
    + destruct (Z.even (floor r)).
      * lra.
      * rewrite plus_IZR. lra.
Qed.

Lemma round_IZR (n : Z) : round (IZR n) = n.
Proof.
  unfold round. rewrite floor_IZR.
  destruct (Rlt_dec (IZR n - IZR n) (1 / 2)) as [H | H];
    [reflexivity | exfalso; apply H; lra].
Qed.

Lemma bin_near (c : R) :
  Rabs (IZR (bin c) - c) <= 5 /\ (bin c mod 10 = 0)%Z.
Proof.
  unfold bin. split.
  - rewrite mult_IZR.
    pose proof (round_near (c / 10)) as H.
    apply Rabs_le. lra.
  - apply Z.mod_mul. lia.
Qed.

Lemma key_eqb_refl (k : Z * Z) : key_eqb k k = true.
Proof. unfold key_eqb. rewrite !Z.eqb_refl. reflexivity. Qed.

Lemma key_eqb_trans_false (k k' k'' : Z * Z) :
  key_eqb k' k = true -> key_eqb k k'' = false -> key_eqb k' k'' = false.
Proof.
  unfold key_eqb. intros H1 H2.
  apply andb_prop in H1. destruct H1 as [Ha Hb].
  apply Z.eqb_eq in Ha. apply Z.eqb_eq in Hb. rewrite Ha, Hb. exact H2.
Qed.

(** Appending under a key: that key's list grows at its end, the lists of
    the other keys stay, and one more value is stored. *)
Lemma cell_append_same (k : Z * Z) (v : Q) (h : heatmap) :
  cell k (append_to k v h) = cell k h ++ [v].
Proof.
  induction h as [|[k' vs] h IH]; cbn [append_to cell].
  - rewrite key_eqb_refl. reflexivity.
  - destruct (key_eqb k' k) eqn:E; cbn [cell]; rewrite E; auto.
Qed.

Lemma cell_append_other (k k'' : Z * Z) (v : Q) (h : heatmap) :
  key_eqb k k'' = false -> cell k'' (append_to k v h) = cell k'' h.
Proof.
  intros Hne. induction h as [|[k' vs] h IH]; cbn [append_to cell].
  - rewrite Hne. reflexivity.
  - destruct (key_eqb k' k) eqn:E; cbn [cell].
    + rewrite (key_eqb_trans_false k k' k'' E Hne). reflexivity.
    + destruct (key_eqb k' k''); auto.
Qed.

Lemma stored_append (k : Z * Z) (v : Q) (h : heatmap) :
  stored (append_to k v h) = S (stored h).
Proof.
  induction h as [|[k' vs] h IH]; cbn [append_to stored fold_right snd].
  - reflexivity.
  - destruct (key_eqb k' k); cbn [stored fold_right snd].
    + rewrite length_app. cbn [List.length]. lia.
    + unfold stored in IH. rewrite IH. lia.
Qed.

Variable gpio : bool.
Variable sense : Z -> nat -> list Q.

(** X17.  A sample is filed in the bin next to where it was taken: the bot
    is updated as without the bins, the average is appended at the end of
    the list of the bin of the current position and no other bin changes;
    the key of that bin is a pair of multiples of 10 that lies within 5 cm
    of the position in each coordinate. *)
Theorem sample_is_filed_in_nearby_bin
  (d : Z) (b : Bot.RadiationBot) (h : heatmap) :
  let r := Heatmap.collect_radiation_sample gpio sense d (b, h) in
  let k := (bin (x (Bot.tracker b)), bin (y (Bot.tracker b))) in
  (fst r, fst (snd r)) = Bot.collect_radiation_sample gpio sense d b /\
  cell k (snd (snd r)) = cell k h ++ [fst r] /\
  (forall k' : Z * Z,
     key_eqb k k' = false -> cell k' (snd (snd r)) = cell k' h) /\
  Rabs (IZR (fst k) - x (Bot.tracker b)) <= 5 /\
  Rabs (IZR (snd k) - y (Bot.tracker b)) <= 5 /\
  (fst k mod 10 = 0)%Z /\ (snd k mod 10 = 0)%Z.
Proof.
  intros r k. split; [reflexivity|]. split.
  - apply cell_append_same.
  - split; [intros k' Hk'; apply cell_append_other; exact Hk'|].
    destruct (bin_near (x (Bot.tracker b))) as [Hx Hxm].
    destruct (bin_near (y (Bot.tracker b))) as [Hy Hym].
    repeat split; assumption.
Qed.

(** X18.  The bins hold one value per sample: running any script of dwells
    and movements changes the bot as without the bins and stores exactly one
    more value per dwell; and a position on a whole multiple of 10 is its
    own bin. *)
Theorem bins_hold_one_value_per_sample
  (script : list Bot.op) (b : Bot.RadiationBot) (h : heatmap) :
  fst (Heatmap.run_script gpio sense script (b, h))
    = Bot.run_script gpio sense script b /\
  stored (snd (Heatmap.run_script gpio sense script (b, h)))
    = (stored h
       + List.length (Bot.dwell_poses script (Bot.tracker b)))%nat /\
  (forall n : Z, bin (IZR (10 * n)) = (10 * n)%Z).
Proof.
  split; [|split].
  - revert b h. induction script as [|o script IH]; intros b h.
    + reflexivity.
    + change (Heatmap.run_script gpio sense (o :: script) (b, h))
        with (Heatmap.run_script gpio sense script
                (Heatmap.run_op gpio sense (b, h) o)).
      destruct o as [dw | action steps].
      * apply (IH (snd (Bot.collect_radiation_sample gpio sense dw b))).
      * apply IH.
  - revert b h. induction script as [|o script IH]; intros b h.
    + cbn [Bot.dwell_poses List.length]. rewrite Nat.add_0_r. reflexivity.
    + change (Heatmap.run_script gpio sense (o :: script) (b, h))
        with (Heatmap.run_script gpio sense script
                (Heatmap.run_op gpio sense (b, h) o)).
      destruct o as [dw | action steps].
      * change (Heatmap.run_op gpio sense (b, h) (Bot.Dwell dw))
          with (snd (Bot.collect_radiation_sample gpio sense dw b),
                append_to (bin (x (Bot.tracker b)), bin (y (Bot.tracker b)))
                  (fst (Bot.collect_radiation_sample gpio sense dw b)) h).
        rewrite IH, stored_append. cbn [Bot.dwell_poses List.length].
        rewrite collect_tracker. lia.
      * change (Heatmap.run_op gpio sense (b, h) (Bot.Move action steps))
          with (Bot.move_and_track action steps b, h).
        rewrite IH. reflexivity.
  - intros n. unfold bin.
    replace (IZR (10 * n) / 10) with (IZR n)
      by (rewrite mult_IZR; field).
    rewrite round_IZR. lia.
Qed.

End Bins.

Section MockField.
Import Mock.
Local Open Scope R_scope.

(** The field as a function of the squared distance to the source. *)
Lemma mock_radiation_eq (x y sx sy : R) :
  mock_radiation x y sx sy
    = 20 + 1000 / (1 + sqrt ((x - sx) ^ 2 + (y - sy) ^ 2) / 10).
Proof. reflexivity. Qed.

Lemma squared_distance_nonneg (x y sx sy : R) :
  0 <= (x - sx) ^ 2 + (y - sy) ^ 2.
Proof.
  pose proof (pow2_ge_0 (x - sx)). pose proof (pow2_ge_0 (y - sy)). lra.
Qed.

Lemma field_of_distance_antitone (d1 d2 : R) :
  0 <= d1 <= d2 ->
  20 + 1000 / (1 + d2 / 10) <= 20 + 1000 / (1 + d1 / 10).
Proof.
  intros [H0 Hle].
  assert (H : / (1 + d2 / 10) <= / (1 + d1 / 10))
    by (apply Rinv_le_contravar; lra).
  unfold Rdiv at 1 3. nra.
Qed.

(** X19.  The simulated field of [get_mock_reading] has its peak at the
    source: it is 1020 there and only there, it stays above the background
    20 everywhere, and a point that is not farther from the source than
    another has at least the other's field; the reading is the field plus
    the noise drawn. *)
Theorem mock_field_peaks_at_source (x y sx sy : R) :
  20 < mock_radiation x y sx sy <= 1020 /\
  (mock_radiation x y sx sy = 1020 <-> x = sx /\ y = sy) /\
  (forall x' y' : R,
     (x - sx) ^ 2 + (y - sy) ^ 2 <= (x' - sx) ^ 2 + (y' - sy) ^ 2 ->
     mock_radiation x' y' sx sy <= mock_radiation x y sx sy) /\
  (forall normal : R -> R -> R,
     get_mock_reading normal x y sx sy
       = mock_radiation x y sx sy
         + normal 0 (mock_radiation x y sx sy * 0.1)).
Proof.
  rewrite mock_radiation_eq.
  pose proof (squared_distance_nonneg x y sx sy) as Hq.
  pose proof (sqrt_pos ((x - sx) ^ 2 + (y - sy) ^ 2)) as Hd.
  set (d := sqrt ((x - sx) ^ 2 + (y - sy) ^ 2)) in *.
  assert (Hpos : 0 < / (1 + d / 10)) by (apply Rinv_0_lt_compat; lra).
  assert (Hle1 : / (1 + d / 10) <= 1).
  { rewrite <- Rinv_1 at 2. apply Rinv_le_contravar; lra. }
  split; [unfold Rdiv at 1 3; split; nra|]. split; [|split].
  - split.
    + intros H.
      assert (Hi : / (1 + d / 10) = 1) by (unfold Rdiv at 1 in H; nra).
      assert (Hd0 : d = 0).
      { assert (E : (1 + d / 10) * / (1 + d / 10) = 1)
          by (apply Rinv_r; lra).
        rewrite Hi in E. lra. }
      unfold d in Hd0. apply sqrt_eq_0 in Hd0; [|exact Hq].
      rewrite <- !Rsqr_pow2 in Hd0.
      apply Rplus_sqr_eq_0 in Hd0. destruct Hd0 as [Hx Hy].
      split; lra.
    + intros [-> ->]. unfold d.
      replace ((sx - sx) ^ 2 + (sy - sy) ^ 2) with 0 by ring.
      rewrite sqrt_0. field.
  - intros x' y' Hfar. rewrite mock_radiation_eq.
    apply field_of_distance_antitone. split; [exact Hd|].
    apply sqrt_le_1_alt. exact Hfar.
  - intros normal. reflexivity.
Qed.

End MockField.

(* ================================================================== *)
(** * The status of the control hub *)
(* ================================================================== *)

Section HubStatus.
Import Hub.

Variable gpio : bool.
Variable sense : Z -> nat -> list Q.

(** [update_status] on a hub with a robot makes the status agree, whatever
    it was before. *)
Lemma update_status_ok (now : Q) (b : Bot.RadiationBot)
  (s : Sensor.RadiationSensor) (st : Status) :
  Sensor.sane s ->
  status_ok (update_status now {| robot := Some (b, s); status := st |}).
Proof.
  intros Hs. unfold update_status. cbn [robot status].
  pose proof (step_sane s (Sensor.Read now) Hs) as Hs'.
  pose proof (get_reading_nonneg now s (proj1 Hs) (proj2 Hs)) as Hnn.
  cbn [Sensor.step] in Hs'.
  destruct (Sensor.get_reading now s) as [cpm s'] eqn:E.
  cbn [fst snd] in *. unfold status_ok. cbn [robot status radiation_microsv
    radiation_cpm max_radiation total_samples].
  split; [reflexivity|]. split; [exact Hnn|]. split.
  - destruct (Qltb (max_radiation st) cpm) eqn:Em.
    + apply Qle_refl.
    + apply Qltb_false_iff in Em. exact Em.
  - exists b, s'. split; [reflexivity|]. split; [exact Hs' | apply le_n].
Qed.

Lemma init_status_ok (now : Q) : status_ok (init now).
Proof.
  unfold status_ok. cbn. split; [reflexivity|].
  split; [discriminate|]. split; [discriminate|].
  exists Bot.init, (Sensor.init now).
  split; [reflexivity|]. split; [apply init_sane | apply le_n].
Qed.

Lemma step_status_ok (h : ControlHub) (e : event) :
  status_ok h -> status_ok (step gpio sense h e).
Proof.
  intros [Hm [H0 [Hle [b [s [Hr [Hs Ht]]]]]]].
  destruct h as [r st]. cbn [robot status] in *. subst r.
  destruct e as [e' | action steps now | action | during now | now];
    cbn [step].
  - cbn [robot status]. unfold status_ok. cbn [robot status].
    split; [exact Hm|]. split; [exact H0|]. split; [exact Hle|].
    exists b, (Sensor.step s e').
    split; [reflexivity|]. split; [apply step_sane; exact Hs | exact Ht].
  - unfold move_robot. cbn [robot status]. apply update_status_ok, Hs.
  - unfold robot_action. cbn [robot status]. unfold status_ok.
    cbn [robot status set_last_action radiation_microsv radiation_cpm
      max_radiation total_samples].
    split; [exact Hm|]. split; [exact H0|]. split; [exact Hle|].
    exists (Control.do_action action 1 80 b), s.
    split; [reflexivity|]. split; [exact Hs | exact Ht].
  - unfold take_radiation_reading. cbn [robot status].
    apply update_status_ok, run_sane, Hs.
  - apply update_status_ok, Hs.
Qed.

(** X20.  The status of the control hub stays consistent: whatever pulses
    arrive and whatever keys move the robot, make it act or sample, and
    whenever the status is refreshed, the displayed dose rate is the
    conversion of the displayed CPM, the displayed CPM is not negative and
    not above the displayed maximum, and the displayed number of samples is
    not above the number the robot holds.  Without a robot (mock mode)
    nothing changes the hub. *)
Theorem hub_status_is_consistent (t0 : Q) (es : list event) :
  let h := run gpio sense es (init t0) in
  radiation_microsv (status h)
    = Sensor.convert_to_microsieverts (radiation_cpm (status h)) /\
  (0 <= radiation_cpm (status h) <= max_radiation (status h))%Q /\
  (exists b s,
     robot h = Some (b, s) /\
     (total_samples (status h) <= List.length (Bot.radiation_data b))%nat) /\
  (forall st : Status,
     run gpio sense es {| robot := None; status := st |}
       = {| robot := None; status := st |}).
Proof.
  intros h.
  assert (Hok : status_ok h).
  { unfold h. generalize (init_status_ok t0). generalize (init t0).
    induction es as [|e es' IH]; intros h0 H0.
    - exact H0.
    - apply (IH (step gpio sense h0 e)), step_status_ok, H0. }
  destruct Hok as [Hm [H0 [Hle [b [s [Hr [_ Ht]]]]]]].
  split; [exact Hm|]. split; [split; assumption|].
  split; [exists b, s; split; assumption|].
  intros st. clear. induction es as [|e es' IH]; [reflexivity|].
  change (run gpio sense (e :: es') {| robot := None; status := st |})
    with (run gpio sense es'
            (step gpio sense {| robot := None; status := st |} e)).
  destruct e; exact IH.
Qed.

End HubStatus.

(* ================================================================== *)
(** * The heading after a drive *)
(* ================================================================== *)

Section NetTurn.
Import Tracker Bot Invariants.

Lemma update_position_turn_steps (action : string) (steps : Z)
  (p : PositionTracker) :
  heading (update_position action steps p)
    = ((heading p + 45 * turn_steps action steps) mod 360)%Z.
Proof.
  unfold update_position, turn_steps.
  destruct (contains "forward" action);
    [cbn [heading]; f_equal; lia|].
  destruct (contains "backward" action);
    [cbn [heading]; f_equal; lia|].
  destruct (contains "turn left" action); [reflexivity|].
  destruct (contains "turn right" action); cbn [heading]; f_equal; lia.
Qed.

Lemma drive_heading (moves : list (string * Z)) :
  forall b : RadiationBot,
    (heading (tracker (drive moves b)) mod 360
     = (heading (tracker b) + 45 * net_turn moves) mod 360)%Z /\
    (moves <> [] ->
     (0 <= heading (tracker (drive moves b)) < 360)%Z).
Proof.
  induction moves as [|[action steps] moves IH]; intros b.
  - cbn [drive fold_left net_turn fold_right]. split.
    + f_equal. lia.
    + intros H. contradiction.
  - change (drive ((action, steps) :: moves) b)
      with (drive moves (move_and_track action steps b)).
    destruct (IH (move_and_track action steps b)) as [Hm Hr].
    cbn [move_and_track tracker] in Hm.
    rewrite update_position_turn_steps, Zplus_mod_idemp_l in Hm.
    split.
    + rewrite Hm. cbn [net_turn fold_right fst snd]. f_equal.
      fold (net_turn moves). lia.
    + intros _. destruct moves as [|m moves'].
      * cbn [drive fold_left move_and_track tracker].
        rewrite update_position_turn_steps. apply Z.mod_pos_bound. lia.
      * apply Hr. discriminate.
Qed.

(** X21.  Dead reckoning of the heading: from a heading in [[0, 360)], any
    sequence of tracked movements leaves the heading at the start heading
    plus 45 degrees times the net number of left-turn steps, modulo 360;
    advances and unknown actions do not count. *)
Theorem heading_after_drive (moves : list (string * Z)) (b : RadiationBot) :
  (0 <= heading (tracker b) < 360)%Z ->
  heading (tracker (drive moves b))
    = ((heading (tracker b) + 45 * net_turn moves) mod 360)%Z.
Proof.
  intros Hh. destruct (drive_heading moves b) as [Hm Hr].
  rewrite <- Hm. symmetry. apply Z.mod_small.
  destruct moves as [|m moves']; [exact Hh|].
  apply Hr. discriminate.
Qed.

(** X21 on a new bot: three steps left, an advance, one step right and ten
    steps left leave the heading at 180. *)
Lemma heading_after_drive_witness :
  heading
    (tracker
       (drive [("turn left"%string, 3); ("forward"%string, 2);
               ("turn right"%string, 1); ("turn left"%string, 10)]%Z
          Bot.init)) = 180%Z.
Proof.
  apply (heading_after_drive
           [("turn left"%string, 3); ("forward"%string, 2);
            ("turn right"%string, 1); ("turn left"%string, 10)]%Z Bot.init).
  cbn. lia.
Defined.

End NetTurn.
